(** * whitebox.utils.utils: grouped error metrics and JSON payloads

    A shallow embedding of [src/whitebox/utils/utils.py].

    Conventions of the embedding.
    - Python 3 semantics ([1 / 2] is true division).
    - numpy [int64]/[float64] values are idealised as exact real numbers
      (no rounding, overflow, [nan] or [inf]); the dtype is kept as a tag.
    - Exceptions are values of type [exn]; a function that may raise returns
      a [result].
    - Python dicts and lists that the code mutates live in an explicit heap,
      so that two references to one object are visible as such.
    - A pandas [DataFrame] is an ordered list of named, typed columns. *)

From Stdlib Require Import Reals ROrderedType Lra.
From stdpp Require Import gmap strings list fin_maps pretty sorting.

(** ** Python exceptions and results *)

Inductive exn :=
  | AssertionError (msg : string)
  | AttributeError (msg : string)
  | IndexError (msg : string)
  | KeyError (key : string)
  | TypeError (msg : string)
  | SystemError (msg : string)
  | UnboundLocalError (msg : string)
  | ValueError (msg : string).

Inductive result (A : Type) :=
  | Ok (a : A)
  | Raise (e : exn).
Arguments Ok {A} a.
Arguments Raise {A} e.

#[global] Instance result_ret : MRet result := λ A a, Ok a.

#[global] Instance result_bind : MBind result := λ A B k r,
  match r with
  | Ok a => k a
  | Raise e => Raise e
  end.

(** [str(e)] of an exception: the message, except for [KeyError], whose text
    is the [repr] of the missing key. *)
Definition exn_str (e : exn) : string :=
  match e with
  | KeyError k => "'" +:+ k +:+ "'"
  | AssertionError m | AttributeError m | IndexError m | SystemError m
  | UnboundLocalError m | TypeError m | ValueError m => m
  end.

(** [pat in s] on strings. *)
Fixpoint str_contains (pat s : string) : bool :=
  String.prefix pat s ||
  match s with
  | EmptyString => false
  | String _ s' => str_contains pat s'
  end.

Definition nl : string := String (Ascii.ascii_of_nat 10) EmptyString.

Fixpoint spaces (n : nat) : string :=
  match n with
  | O => EmptyString
  | S n' => String (Ascii.ascii_of_nat 32) (spaces n')
  end.

(** ** Settings and the message catalogue *)

Module Settings.
Definition supported_agg_errors : list string := ["MSE"; "MAE"; "RMSE"; "RAW"].
End Settings.

Module ErrorWarningMsgs.
Definition groupbyvars_error : exn :=
  ValueError ("groupbyvars must be a list of grouping " +:+ nl +:+
              spaces 12 +:+ "variables and cannot be None").

Definition error_type_error : exn :=
  ValueError "Supported values for error_type are [MSE, MAE, RMSE]".
End ErrorWarningMsgs.

(** ** Data frames *)

Inductive ndtype := int8 | int64 | float64.

(** A column (a pandas [Series]) with its dtype: numeric, [object] (Python
    strings, [None] for a missing value) or [category] (the sorted categories
    and one code per row, [-1] for a missing value). *)
Inductive column :=
  | Numeric (dt : ndtype) (xs : list R)
  | Object (xs : list (option string))
  | Category (cats : list string) (codes : list Z).

(** A Python scalar as found in one cell of a table. *)
Inductive scalar :=
  | SNum (dt : ndtype) (r : R)
  | SStr (s : string)
  | SNone.

Record DataFrame := mkDataFrame {
  columns : list (string * column);
  nrows : nat                        (* [len(df.index)], i.e. [df.shape[0]] *)
}.

Definition column_length (c : column) : nat :=
  match c with
  | Numeric _ xs => length xs
  | Object xs => length xs
  | Category _ codes => length codes
  end.

(** The invariant of a pandas frame: every column has one value per row. *)
Definition frame_wf (df : DataFrame) : Prop :=
  Forall (λ nc, column_length nc.2 = nrows df) (columns df).

Definition shape (df : DataFrame) : nat * nat := (nrows df, length (columns df)).

Definition column_names (df : DataFrame) : list string := (columns df).*1.

Fixpoint assoc_lookup {A} (k : string) (l : list (string * A)) : option A :=
  match l with
  | [] => None
  | (k', v) :: l' => if decide (k = k') then Some v else assoc_lookup k l'
  end.

(** [d[k] = v] on an insertion-ordered dict: overwrite in place, or append. *)
Fixpoint assoc_set {A} (k : string) (v : A) (l : list (string * A)) : list (string * A) :=
  match l with
  | [] => [(k, v)]
  | (k', v') :: l' =>
      if decide (k = k') then (k, v) :: l' else (k', v') :: assoc_set k v l'
  end.

(** A dict display [{k1: v1, ..., kn: vn}]: keys are inserted left to right. *)
Definition dict_literal {A} (items : list (string * A)) : list (string * A) :=
  foldl (λ d kv, assoc_set kv.1 kv.2 d) [] items.

(** [df[name]] *)
Definition getitem (df : DataFrame) (name : string) : result column :=
  match assoc_lookup name (columns df) with
  | Some c => Ok c
  | None => Raise (KeyError name)
  end.

(** ** numpy on idealised numbers *)

Definition np_sum (xs : list R) : R := foldr Rplus 0%R xs.

Definition np_mean (xs : list R) : R := (np_sum xs / INR (length xs))%R.

Definition np_absolute (xs : list R) : list R := Rabs <$> xs.

(** [xs ** k] for an integer exponent [k]. *)
Definition np_power_int (xs : list R) (k : nat) : list R := (λ x, (x ^ k)%R) <$> xs.

(** [x ** y] on floats for [0 <= x]; [0 ** y] is [0] for a positive [y] and
    [1] for [y = 0]. *)
Definition float_pow (x y : R) : R :=
  if Req_dec_T x 0 then (if Req_dec_T y 0 then 1%R else 0%R) else Rpower x y.

(** Arithmetic on a column is defined on numeric dtypes only: [errors ** 2]
    raises [TypeError] on strings and on categoricals (the text of the message
    is abbreviated). *)
Definition numeric_values (c : column) : result (list R) :=
  match c with
  | Numeric _ xs => Ok xs
  | Object _ | Category _ _ =>
      Raise (TypeError "unsupported operand type(s) for ** or pow()")
  end.

(** ** The insight aggregator *)

(** "the grouping object from the pandas groupby": the rows of one group,
    carrying the group's key as its [name]. *)
Record Group := mkGroup {
  gframe : DataFrame;
  gname : scalar
}.

Definition scalar_column (v : scalar) : column :=
  match v with
  | SNum dt r => Numeric dt [r]
  | SStr s => Object [Some s]
  | SNone => Object [None]
  end.

Definition opt_scalar (o : option string) : scalar :=
  match o with
  | Some s => SStr s
  | None => SNone
  end.

(** [pd.DataFrame({...scalars...}, index=[0])]: one row, one column per key. *)
Definition frame_of_scalars (items : list (string * scalar)) : DataFrame :=
  {| columns := (λ kv, (kv.1, scalar_column kv.2)) <$> dict_literal items;
     nrows := 1 |}.

Definition create_insights_assert_msg : string :=
  "Currently only supports" +:+ nl +:+ spaces 49 +:+ "MAE, MSE, RMSE, RAW".

(** The local [error_dict] of [create_insights]: every entry is computed,
    whichever one is asked for. *)
Definition error_dict (errors : list R) (shape0 : nat) : list (string * R) :=
  dict_literal
    [("MSE", np_mean (np_power_int errors 2));
     ("RMSE", float_pow (np_mean (np_power_int errors 2)) (1 / 2)%R);
     ("MAE", (np_sum (np_absolute errors) / INR shape0)%R);
     ("RAW", np_mean errors)].

Definition create_insights (group : Group) (group_var : option string)
    (error_type : string) : result DataFrame :=
  if bool_decide (error_type ∈ ["MSE"; "RMSE"; "MAE"; "RAW"]) then
    errors_col ← getitem (gframe group) "errors";
    (* [errors ** 2], the first operation, is where a non-numeric column raises *)
    errors ← numeric_values errors_col;
    match assoc_lookup error_type (error_dict errors (nrows (gframe group))) with
    | None => Raise (KeyError error_type)
    | Some stat =>
        Ok (frame_of_scalars
              [("groupByValue", gname group);
               ("groupByVarName", opt_scalar group_var);
               (error_type, SNum float64 stat);
               ("Total", SNum float64 (INR (nrows (gframe group))))])
    end
  else Raise (AssertionError create_insights_assert_msg).

(** ** Grouping *)

#[global] Instance R_eq_dec : EqDecision R := Req_dec_T.
#[global] Instance ndtype_eq_dec : EqDecision ndtype.
Proof. solve_decision. Defined.
#[global] Instance scalar_eq_dec : EqDecision scalar.
Proof. solve_decision. Defined.

(** Insertion into a strictly increasing list, dropping duplicates. *)
Fixpoint insert_uniq {A} (cmp : A → A → comparison) (x : A) (l : list A) : list A :=
  match l with
  | [] => [x]
  | y :: l' =>
      match cmp x y with
      | Lt => x :: y :: l'
      | Eq => y :: l'
      | Gt => y :: insert_uniq cmp x l'
      end
  end.

Definition sorted_uniq {A} (cmp : A → A → comparison) (xs : list A) : list A :=
  foldr (insert_uniq cmp) [] xs.

(** The key of each row; a missing value is no key ([groupby] drops the row). *)
Definition row_keys (c : column) : list (option scalar) :=
  match c return list (option scalar) with
  | Numeric dt xs => (λ x, Some (SNum dt x)) <$> xs
  | Object xs => (λ o : option string, SStr <$> o) <$> xs
  | Category cats codes =>
      (λ z, if decide (0 ≤ z)%Z then SStr <$> cats !! Z.to_nat z else None) <$> codes
  end.

(** The group keys in iteration order ([sort=True]): increasing values; for a
    categorical, the categories in their own order (those that occur). *)
Definition group_keys (c : column) : list scalar :=
  match c return list scalar with
  | Numeric dt xs => SNum dt <$> sorted_uniq Rcompare xs
  | Object xs => SStr <$> sorted_uniq String.compare (omap (λ o : option string, o) xs)
  | Category cats codes =>
      SStr <$> filter (λ s, Some (SStr s) ∈ row_keys (Category cats codes)) cats
  end.

Fixpoint mask_select {A} (m : list bool) (xs : list A) : list A :=
  match m, xs with
  | b :: m', x :: xs' => if b then x :: mask_select m' xs' else mask_select m' xs'
  | _, _ => []
  end.

Definition column_rows (m : list bool) (c : column) : column :=
  match c with
  | Numeric dt xs => Numeric dt (mask_select m xs)
  | Object xs => Object (mask_select m xs)
  | Category cats codes => Category cats (mask_select m codes)
  end.

(** [df[mask]]: the rows where the mask holds. *)
Definition frame_rows (m : list bool) (df : DataFrame) : DataFrame :=
  {| columns := (λ nc, (nc.1, column_rows m nc.2)) <$> columns df;
     nrows := length (filter (λ b, b = true) (take (nrows df) m)) |}.

(** [df.groupby(by)]: one group per key of column [by], each carrying its key
    as [name].  [by=None] (with no [level]) is refused by pandas. *)
Definition groupby (df : DataFrame) (by_ : option string) : result (list Group) :=
  match by_ with
  | None => Raise (TypeError "You have to supply one of 'by' and 'level'")
  | Some col =>
      key ← getitem df col;
      Ok ((λ k, {| gframe :=
                     frame_rows ((λ k', bool_decide (k' = Some k)) <$> row_keys key) df;
                   gname := k |}) <$> group_keys key)
  end.

Definition widen (d1 d2 : ndtype) : ndtype :=
  match d1, d2 with
  | float64, _ | _, float64 => float64
  | int64, _ | _, int64 => int64
  | int8, int8 => int8
  end.

Definition append_column (c1 c2 : column) : column :=
  match c1, c2 with
  | Numeric d1 xs, Numeric d2 ys => Numeric (widen d1 d2) (xs ++ ys)
  | Object xs, Object ys => Object (xs ++ ys)
  | _, _ => c1
  end.

(** [pd.concat] of frames that have the same columns (as the rows returned by
    [create_insights] for one error type do): columns are matched by name and
    the rows of the later frame follow those of the earlier one. *)
Definition append_frame (d1 d2 : DataFrame) : DataFrame :=
  {| columns :=
       (λ nc, (nc.1, match assoc_lookup nc.1 (columns d2) with
                     | Some c2 => append_column nc.2 c2
                     | None => nc.2
                     end)) <$> columns d1;
     nrows := nrows d1 + nrows d2 |}.

Definition pd_concat (dfs : list DataFrame) : DataFrame :=
  match dfs with
  | [] => {| columns := []; nrows := 0 |}
  | d :: ds => foldl append_frame d ds
  end.

(** [df.groupby(by).apply(f)]: [f] on every group in key order, the results
    stacked.  The first exception raised by [f] ends the call. *)
Definition groupby_apply (df : DataFrame) (by_ : option string)
    (f : Group → result DataFrame) : result DataFrame :=
  groups ← groupby df by_;
  rows ← mapM f groups;
  Ok (pd_concat rows).

(** [reset_index(drop=True)]: the index is replaced by [0..n-1]; rows and
    columns stay. The table model keeps only the length of the index. *)
Definition reset_index_drop (df : DataFrame) : DataFrame := df.

(** ** The accuracy pipeline *)

Definition create_accuracy (model_type : string) (cat_df : DataFrame)
    (error_type : string) (groupby : option string) : result DataFrame :=
  let error_type :=
    if decide (model_type = "classification") then "RAW" else error_type in
  acc ← groupby_apply cat_df groupby
          (λ group, create_insights group groupby error_type);
  Ok (reset_index_drop acc).

(** ** The categorical encoder *)

Inductive signal :=
  | LoggingWarn (msg : string)
  | UserWarning (msg : string).

Inductive dtype_kind := KNumber | KObject | KCategory.

#[global] Instance dtype_kind_eq_dec : EqDecision dtype_kind.
Proof. solve_decision. Defined.

Definition kind_of (c : column) : dtype_kind :=
  match c with
  | Numeric _ _ => KNumber
  | Object _ => KObject
  | Category _ _ => KCategory
  end.

(** [df.select_dtypes(include=...)] *)
Definition select_dtypes (include : list dtype_kind) (df : DataFrame) : DataFrame :=
  {| columns := filter (λ nc, kind_of nc.2 ∈ include) (columns df);
     nrows := nrows df |}.

Fixpoint index_of (s : string) (l : list string) : Z :=
  match l with
  | [] => -1
  | x :: l' =>
      if decide (s = x) then 0%Z
      else let i := index_of s l' in if decide (i = -1)%Z then (-1)%Z else (1 + i)%Z
  end.

(** [pd.Categorical(series)]: categories are the sorted distinct values, each
    row holds the position of its value ([-1] when missing); a categorical
    stays as it is. *)
Definition pd_Categorical (c : column) : column :=
  match c with
  | Object xs =>
      let cats := sorted_uniq String.compare (omap (λ o : option string, o) xs) in
      Category cats
        ((λ o, match o with Some s => index_of s cats | None => (-1)%Z end) <$> xs)
  | Category cats codes => Category cats codes
  | Numeric dt xs => Numeric dt xs
  end.

(** [series.cat.codes] *)
Definition cat_codes (c : column) : column :=
  match c with
  | Category _ codes => Numeric int8 (IZR <$> codes)
  | _ => c
  end.

(** [df.loc[:, name] = f(df.loc[:, name])] *)
Definition loc_update (name : string) (f : column → column) (df : DataFrame) : DataFrame :=
  {| columns := (λ nc, if decide (nc.1 = name) then (nc.1, f nc.2) else nc) <$> columns df;
     nrows := nrows df |}.

(** [df.copy(deep=True)]: tables are values here, so the copy is the value. *)
Definition copy_deep (df : DataFrame) : DataFrame := df.

Definition no_categorical_msg : string :=
  "Pandas categorical variable types not detected".

(** Returns the converted copy and the warnings sent to [logging] and to
    [warnings], in order. *)
Definition convert_categorical_independent (dataframe : DataFrame)
    : DataFrame * list signal :=
  let dataframe := copy_deep dataframe in
  let dataframe :=
    foldl (λ df str_col, loc_update str_col pd_Categorical df) dataframe
          (column_names (select_dtypes [KObject; KCategory] dataframe)) in
  let cats := select_dtypes [KCategory] dataframe in
  let signals :=
    if decide ((shape cats).2 = 0)
    then [LoggingWarn no_categorical_msg; UserWarning no_categorical_msg]
    else [] in
  let dataframe :=
    foldl (λ df category, loc_update category cat_codes df) dataframe
          (column_names cats) in
  (dataframe, signals).

(** ** Python objects on the heap *)

Definition loc := positive.

(** A Python value: an immutable scalar, or a reference to a mutable object. *)
Inductive pyval :=
  | VNone
  | VNum (dt : ndtype) (r : R)
  | VStr (s : string)
  | VRef (l : loc).

(** Mutable objects: dicts with string keys, and lists. *)
Inductive heap_obj :=
  | HDict (d : gmap string pyval)
  | HList (items : list pyval).

Abbreviation heap := (gmap loc heap_obj).

(** Computations that read and write the heap and may raise; the heap reached
    when an exception is raised is kept. *)
Definition M (A : Type) : Type := heap → result A * heap.

#[global] Instance M_ret : MRet M := λ A a h, (Ok a, h).

#[global] Instance M_bind : MBind M := λ A B k m h,
  match m h with
  | (Ok a, h') => k a h'
  | (Raise e, h') => (Raise e, h')
  end.

Definition raise {A} (e : exn) : M A := λ h, (Raise e, h).

(** A new object, at an address not in use. *)
Definition alloc (o : heap_obj) : M pyval :=
  λ h, let l := fresh (dom h) in (Ok (VRef l), <[l := o]> h).

Fixpoint for_in {A} (xs : list A) (body : A → M ()) : M () :=
  match xs with
  | [] => mret ()
  | x :: xs' => body x ≫= λ _, for_in xs' body
  end.

Definition type_name (h : heap) (v : pyval) : string :=
  match v with
  | VNone => "NoneType"
  | VNum float64 _ => "float"
  | VNum _ _ => "int"
  | VStr _ => "str"
  | VRef l =>
      match h !! l with
      | Some (HDict _) => "dict"
      | Some (HList _) => "list"
      | None => "object"
      end
  end.

(** [isinstance(v, dict)] *)
Definition is_dict (h : heap) (v : pyval) : bool :=
  match v with
  | VRef l => match h !! l with Some (HDict _) => true | _ => false end
  | _ => false
  end.

(** [v[key]] for a string [key] *)
Definition getitem_str (v : pyval) (key : string) : M pyval := λ h,
  match v with
  | VRef l =>
      match h !! l with
      | Some (HDict d) =>
          match d !! key with
          | Some x => (Ok x, h)
          | None => (Raise (KeyError key), h)
          end
      | Some (HList _) =>
          (Raise (TypeError "list indices must be integers or slices, not str"), h)
      | None => (Raise (SystemError "reference to no object"), h)
      end
  | VStr _ => (Raise (TypeError "string indices must be integers"), h)
  | _ => (Raise (TypeError ("'" +:+ type_name h v +:+ "' object is not subscriptable")), h)
  end.

(** [v[key] = x] for a string [key] *)
Definition setitem_str (v : pyval) (key : string) (x : pyval) : M () := λ h,
  match v with
  | VRef l =>
      match h !! l with
      | Some (HDict d) => (Ok (), <[l := HDict (<[key := x]> d)]> h)
      | Some (HList _) =>
          (Raise (TypeError "list indices must be integers or slices, not str"), h)
      | None => (Raise (SystemError "reference to no object"), h)
      end
  | _ => (Raise (TypeError ("'" +:+ type_name h v +:+
                            "' object does not support item assignment")), h)
  end.

(** [xs[i]] on a Python list given by its items *)
Definition list_getitem (xs : list pyval) (i : nat) : M pyval := λ h,
  match xs !! i with
  | Some v => (Ok v, h)
  | None => (Raise (IndexError "list index out of range"), h)
  end.

Fixpoint string_chars (s : string) : list pyval :=
  match s with
  | EmptyString => []
  | String c s' => VStr (String c EmptyString) :: string_chars s'
  end.

(** The items [v] yields when iterated: those of a list, the keys of a dict
    (in the order of the model's map), the characters of a string. *)
Definition iterate (v : pyval) : M (list pyval) := λ h,
  match v with
  | VRef l =>
      match h !! l with
      | Some (HList items) => (Ok items, h)
      | Some (HDict d) => (Ok (VStr <$> (map_to_list d).*1), h)
      | None => (Raise (SystemError "reference to no object"), h)
      end
  | VStr s => (Ok (string_chars s), h)
  | _ => (Raise (TypeError ("'" +:+ type_name h v +:+ "' object is not iterable")), h)
  end.

(** [target.extend]: the bound method, which only a list has. *)
Definition extend_method (target : pyval) : M loc := λ h,
  match target with
  | VRef l =>
      match h !! l with
      | Some (HList _) => (Ok l, h)
      | _ => (Raise (AttributeError ("'" +:+ type_name h target +:+
                                     "' object has no attribute 'extend'")), h)
      end
  | _ => (Raise (AttributeError ("'" +:+ type_name h target +:+
                                 "' object has no attribute 'extend'")), h)
  end.

(** The call [l.extend(source)]: the list at [l] grows in place by the items
    of [source]. *)
Definition list_grow (l : loc) (new : list pyval) : M () := λ h,
  match h !! l with
  | Some (HList items) => (Ok (), <[l := HList (items ++ new)]> h)
  | _ => (Raise (SystemError "reference to no object"), h)
  end.

Definition extend_call (l : loc) (source : pyval) : M () :=
  new ← iterate source;
  list_grow l new.

(** ** Serialization *)

Definition pyval_of_scalar (v : scalar) : pyval :=
  match v with
  | SNum dt r => VNum dt r
  | SStr s => VStr s
  | SNone => VNone
  end.

Definition column_cell (c : column) (i : nat) : scalar :=
  match c with
  | Numeric dt xs => match xs !! i with Some x => SNum dt x | None => SNone end
  | Object xs => match xs !! i with Some (Some s) => SStr s | _ => SNone end
  | Category cats codes =>
      match codes !! i with
      | Some z =>
          if decide (0 ≤ z)%Z
          then match cats !! Z.to_nat z with Some s => SStr s | None => SNone end
          else SNone
      | None => SNone
      end
  end.

(** [df.to_dict(orient='records')]: a new list holding one new dict per row,
    from column name to the value in that row. *)
Definition to_dict_records (df : DataFrame) : M pyval :=
  rows ← mapM (λ i, alloc (HDict (list_to_map
                 ((λ nc, (nc.1, pyval_of_scalar (column_cell nc.2 i))) <$> columns df))))
              (seq 0 (nrows df));
  alloc (HList rows).

(** What [to_json] is given as [incremental_val]. *)
Inductive increment :=
  | INone
  | IInt (z : Z)
  | IFloat (x : R)
  | IStr (s : string).

Definition to_json_vartype_msg : string :=
  "Vartypes should only be continuous, " +:+ nl +:+ spaces 80 +:+ "categorical," +:+
  nl +:+ spaces 80 +:+ "Percentile or accuracy".

Section Serialization.
(** The decimal rendering of floats is left open: [round2 x] stands for
    [round(x, 2)] and [float_str x] for [str(x)]. *)
Variable round2 : R → R.
Variable float_str : R → string.

Definition py_str (v : increment) : string :=
  match v with
  | INone => "None"
  | IInt z => pretty z
  | IFloat x => float_str x
  | IStr s => s
  end.

Definition to_json (dataframe : DataFrame) (vartype html_type : string)
    (incremental_val : increment) : M pyval :=
  if negb (bool_decide (vartype ∈ ["Continuous"; "Categorical"; "Accuracy"; "Percentile"]))
  then raise (AssertionError to_json_vartype_msg)
  else if negb (bool_decide (html_type ∈ ["error"; "sensitivity"; "percentile"]))
  then raise (AssertionError "html_type must be error or sensitivity")
  else
    (* prepare for error *)
    json_out ←
      (if bool_decide (html_type ∈ ["error"; "percentile"])
       then d ← alloc (HDict {[ "Type" := VStr vartype ]}); mret (Some d)
       else mret None);
    (* prepare for sensitivity *)
    json_out ←
      (if bool_decide (html_type = "sensitivity")
       then
         let incremental_val :=
           match incremental_val with
           | IFloat x => IFloat (round2 x)
           | v => v
           end in
         d ← alloc (HDict (<[ "Change" := VStr (py_str incremental_val) ]>
                             {[ "Type" := VStr vartype ]}));
         mret (Some d)
       else mret json_out);
    match json_out with
    | None =>
    raise (UnboundLocalError "local variable 'json_out' referenced before assignment")
    | Some json_out =>
        (* create data records from values in df *)
        data ← to_dict_records dataframe;
        setitem_str json_out "Data" data;;
        mret json_out
    end.
End Serialization.

Definition flatten_json_assert_msg (h : heap) (toreturn : pyval) : string :=
  "flatten_json output object not of class dict." +:+ nl +:+ spaces 40 +:+ nl +:+
  "Output class type: <class '" +:+ type_name h toreturn +:+ "'>".

(** [assert isinstance(toreturn, dict), ...] *)
Definition assert_dict (toreturn : pyval) : M () := λ h,
  if is_dict h toreturn then (Ok (), h)
  else (Raise (AssertionError (flatten_json_assert_msg h toreturn)), h).

(** The body of the loop of [flatten_json]:
    [copydict[0]['Data'].extend(val['Data'])]. The receiver and its bound
    method are evaluated before the argument. *)
Definition flatten_step (copydict : list pyval) (val : pyval) : M () :=
  first ← list_getitem copydict 0;
  target ← getitem_str first "Data";
  extend ← extend_method target;
  source ← getitem_str val "Data";
  extend_call extend source.

Definition flatten_json (dictlist : list pyval) : M pyval :=
  (* make copy of dictlist: a new list that holds the same references *)
  let copydict := dictlist in
  toreturn ←
    (if decide (1 < length copydict) then
       for_in (drop 1 copydict) (flatten_step copydict);;
       (* take the revised first element of the list *)
       list_getitem copydict 0
     else
       (* [copydict] is a list: return the dictionary object *)
       list_getitem copydict 0);
  assert_dict toreturn;;
  mret toreturn.

(** ** Reading payloads off the heap *)

Definition payload_dict (h : heap) (v : pyval) : option (gmap string pyval) :=
  match v with
  | VRef p => match h !! p with Some (HDict d) => Some d | _ => None end
  | _ => None
  end.

(** The list object that a payload's [Data] key refers to. *)
Definition data_loc (h : heap) (v : pyval) : option loc :=
  match payload_dict h v with
  | Some d => match d !! "Data" with Some (VRef l) => Some l | _ => None end
  | None => None
  end.

(** The items of a payload's [Data] list. *)
Definition payload_data (h : heap) (v : pyval) : option (list pyval) :=
  match data_loc h v with
  | Some l => match h !! l with Some (HList items) => Some items | _ => None end
  | None => None
  end.

(** ** The probability accuracy *)

(** [prob_acc(true_class, pred_prob)], on idealised numbers. *)
Definition prob_acc (true_class pred_prob : R) : R :=
  (true_class * (1 - pred_prob) + (1 - true_class) * pred_prob)%R.

(** ** The HTML template *)

(** [s.replace("", new)]: [new] before every character and at the end. *)
Fixpoint str_intersperse (new s : string) : string :=
  match s with
  | EmptyString => new
  | String c s' => new +:+ String c (str_intersperse new s')
  end.

(** [s.replace(old, new)] for a non-empty [old], scanning left to right;
    [skip] counts the characters of a match still to be passed over. *)
Fixpoint replace_from (old new : string) (skip : nat) (s : string) : string :=
  match s with
  | EmptyString => EmptyString
  | String c s' =>
      match skip with
      | S k => replace_from old new k s'
      | O =>
          if String.prefix old s
          then new +:+ replace_from old new (String.length old - 1) s'
          else String c (replace_from old new 0 s')
      end
  end.

(** [s.replace(old, new)] *)
Definition str_replace (old new s : string) : string :=
  match old with
  | EmptyString => str_intersperse new s
  | _ => replace_from old new 0 s
  end.

(** The exceptions of the template loader: those above, and the [IOError] of
    [open] on a path that holds no readable file. *)
Inductive html_exn :=
  | Exn (e : exn)
  | IOError (path : string).

(** [open(path, 'r').read()] on a file system given as the text of every
    readable file. *)
Definition open_read (fs : gmap string string) (path : string) : html_exn + string :=
  match fs !! path with
  | Some text => inr text
  | None => inl (IOError path)
  end.

Definition createmlerror_html_assert_msg : string :=
  "htmltype must be html_error " +:+ nl +:+ spaces 64 +:+ "or html_sensitivity".

Section Templates.
(** [pkg_resources.resource_filename(package, name)]: where the installed
    package keeps its resource; the path depends on the installation. *)
Variable resource_filename : string → string → string.

(** [HTML.get_html]: the template in the working directory if it can be read,
    the packaged one otherwise. *)
Definition get_html (fs : gmap string string) (htmltype : string) : html_exn + string :=
  if bool_decide (htmltype ∈ ["html_error"; "html_sensitivity"]) then
    let html_path := resource_filename "whitebox" (htmltype +:+ ".txt") in
    match open_read fs (htmltype +:+ ".txt") with
    | inr wbox_html => inr wbox_html
    | inl (IOError _) => open_read fs html_path
    | inl e => inl e
    end
  else inl (Exn (AssertionError "htmltype must be html_error or html_sensitivity")).

Definition createmlerror_html (fs : gmap string string)
    (datastring dependentvar htmltype : string) : html_exn + string :=
  if bool_decide (htmltype ∈ ["html_error"; "html_sensitivity"]) then
    match get_html fs htmltype with
    | inr template =>
        inr (str_replace "Quality" dependentvar (str_replace "<***>" datastring template))
    | inl e => inl e
    end
  else inl (Exn (AssertionError createmlerror_html_assert_msg)).
End Templates.

(** * Specification vocabulary and sample inputs *)

(** ** The statistics as the specification words them *)

Module Spec.
Definition sum (e : list R) : R := fold_right Rplus 0%R e.
Definition mean (e : list R) : R := (sum e / INR (length e))%R.
Definition MSE (e : list R) : R := mean (map (λ x, x * x)%R e).
Definition RMSE (e : list R) : R := sqrt (MSE e).
Definition MAE (e : list R) : R := (sum (map Rabs e) / INR (length e))%R.
Definition RAW (e : list R) : R := mean e.

Definition statistic (error_type : string) (e : list R) : option R :=
  if decide (error_type = "MSE") then Some (MSE e)
  else if decide (error_type = "RMSE") then Some (RMSE e)
  else if decide (error_type = "MAE") then Some (MAE e)
  else if decide (error_type = "RAW") then Some (RAW e)
  else None.
End Spec.

(** ** The claims in the vocabulary of the model *)

(** What it means for a call to fail with the missing-column error naming
    column [c]: a [KeyError] whose text contains [c]. *)
Definition raises_missing_column {A} (r : result A) (c : string) : Prop :=
  ∃ k, r = Raise (KeyError k) ∧ str_contains c (exn_str (KeyError k)) = true.

(** What it means for a failure to be surfaced with the offending value and
    the valid set: the text of the error contains both. *)
Definition surfaces_value_and_valid_set {A} (r : result A)
    (offending : string) (valid : list string) : Prop :=
  ∃ e, r = Raise e ∧
       str_contains offending (exn_str e) = true ∧
       Forall (λ v, str_contains v (exn_str e) = true) valid.

(** The claim about [flatten_json] on the payloads [dictlist] in heap [h]:
    the call returns the first payload, its dict as it was, and its [Data]
    now holds the concatenation, in input order, of the [Data] lists the
    inputs had. *)
Definition flatten_concatenates (h : heap) (dictlist : list pyval) : Prop :=
  ∃ first datas h',
    dictlist !! 0 = Some first ∧
    mapM (payload_data h) dictlist = Some datas ∧
    flatten_json dictlist h = (Ok first, h') ∧
    payload_data h' first = Some (concat datas) ∧
    payload_dict h' first = payload_dict h first.

(** ** Sample inputs *)

Definition test_group : Group :=
  {| gframe := {| columns := [("errors", Numeric int64 [0; 1; 2; 3]%R)]; nrows := 4 |};
     gname := SStr "testname" |}.

Definition test_group_random : Group :=
  {| gframe := {| columns := [("random", Numeric int64 [0; 1; 2; 3]%R)]; nrows := 4 |};
     gname := SStr "testname" |}.

Definition test_group_negated : Group :=
  {| gframe := {| columns := [("errors", Numeric int64 (map Ropp [0; 1; 2; 3]%R))];
                  nrows := 4 |};
     gname := SStr "testname" |}.

Definition test_group_text : Group :=
  {| gframe := {| columns := [("errors", Object [Some "low"; Some "high"])];
                  nrows := 2 |};
     gname := SStr "testname" |}.

Definition accuracy_setup : DataFrame :=
  {| columns := [("errors", Numeric float64 [1; 2; 3; 4]%R);
                 ("col2", Object [Some "a"; Some "a"; Some "b"; Some "b"])];
     nrows := 4 |}.

Definition numeric_frame : DataFrame :=
  {| columns := [("x", Numeric float64 [1; 2]%R); ("y", Numeric int64 [3; 4]%R)];
     nrows := 2 |}.

Definition mixed_frame : DataFrame :=
  {| columns := [("kind", Object [Some "red"; Some "white"; None; Some "red"]);
                 ("x", Numeric float64 [1; 2; 3; 4]%R)];
     nrows := 4 |}.

Definition payload_table : DataFrame :=
  {| columns := [("groupByValue", Object [Some "a"; Some "b"]);
                 ("Total", Numeric float64 [2; 2]%R)];
     nrows := 2 |}.

(** Two payloads [1] and [2] with their own [Data] lists [3] and [4]. *)
Definition two_payloads : heap :=
  {[ 1%positive := HDict {[ "Type" := VStr "Continuous"; "Data" := VRef 3%positive ]};
     2%positive := HDict {[ "Type" := VStr "Continuous"; "Data" := VRef 4%positive ]};
     3%positive := HList [VStr "a"];
     4%positive := HList [VStr "b"] ]}.

(** ** Reading results *)

(** The statistic found in the row returned by [create_insights], in the
    column named by the error type. *)
Definition insight_value (group : Group) (group_var : option string)
    (error_type : string) : option R :=
  match create_insights group group_var error_type with
  | Ok out =>
      match assoc_lookup error_type (columns out) with
      | Some (Numeric _ [v]) => Some v
      | _ => None
      end
  | Raise _ => None
  end.

(** The record of row [i] of a table: from column name to the value in that
    row (the dict that [to_dict_records] allocates for the row). *)
Definition row_record (df : DataFrame) (i : nat) : gmap string pyval :=
  list_to_map ((λ nc, (nc.1, pyval_of_scalar (column_cell nc.2 i))) <$> columns df).

(** Two payloads, the third object a dict without a [Data] key. *)
Definition payloads_with_broken : heap :=
  <[ 5%positive := HDict {[ "Type" := VStr "Continuous" ]} ]> two_payloads.

(** ** The accuracy table in the vocabulary of the model *)

(** The distinct labels of a key column, in increasing order. *)
Definition distinct_keys (keys : list (option string)) : list string :=
  sorted_uniq String.compare (omap (λ o : option string, o) keys).

(** For each row, whether its key is the label [k]. *)
Definition key_mask (keys : list (option string)) (k : string) : list bool :=
  (λ o, bool_decide (o = Some k)) <$> keys.

(** The residuals of the rows whose key is [k]. *)
Definition group_residuals (keys : list (option string)) (e : list R) (k : string)
    : list R :=
  mask_select (key_mask keys k) e.

(** The number of rows whose key is [k]. *)
Definition key_count (keys : list (option string)) (k : string) : nat :=
  length (filter (λ o, o = Some k) keys).

(** The error type that [create_accuracy] aggregates with. *)
Definition effective_error_type (model_type error_type : string) : string :=
  if decide (model_type = "classification") then "RAW" else error_type.

(** A table of insight rows, column by column. *)
Definition insight_table (error_type : string) (values : list string)
    (vars : list (option string)) (stats totals : list R) (n : nat) : DataFrame :=
  {| columns := [("groupByValue", Object (Some <$> values));
                 ("groupByVarName", Object vars);
                 (error_type, Numeric float64 stats);
                 ("Total", Numeric float64 totals)];
     nrows := n |}.

(** * Properties *)

(** ** Helper lemmas: association lists and numbers *)

Lemma assoc_lookup_elem_of {A} k (v : A) l :
  assoc_lookup k l = Some v → (k, v) ∈ l.
Proof.
  induction l as [|[k' v'] l IH]; simpl; [done|].
  case_decide; intros Hl.
  - simplify_eq. by left.
  - right. by apply IH.
Qed.

Lemma frame_wf_column_length df name c :
  frame_wf df → assoc_lookup name (columns df) = Some c →
  column_length c = nrows df.
Proof.
  intros Hwf Hl. apply assoc_lookup_elem_of in Hl.
  unfold frame_wf in Hwf. rewrite Forall_forall in Hwf.
  by apply (Hwf _ Hl).
Qed.

Lemma np_sum_spec e : np_sum e = Spec.sum e.
Proof. reflexivity. Qed.

Lemma np_power_int_2 e : np_power_int e 2 = map (λ x, x * x)%R e.
Proof.
  unfold np_power_int. induction e as [|x e IH]; simpl; [done|].
  f_equal; [lra | exact IH].
Qed.

Lemma np_absolute_spec e : np_absolute e = map Rabs e.
Proof. reflexivity. Qed.

Lemma sum_squares_nonneg e : (0 <= Spec.sum (map (λ x, x * x) e))%R.
Proof.
  induction e as [|x e IH]; simpl; [lra|].
  pose proof (Rle_0_sqr x) as Hx. unfold Rsqr in Hx. lra.
Qed.

Lemma MSE_nonneg e : 0 < length e → (0 <= Spec.MSE e)%R.
Proof.
  intros Hn. unfold Spec.MSE, Spec.mean. rewrite length_map.
  apply Rle_mult_inv_pos; [apply sum_squares_nonneg|].
  apply lt_0_INR. lia.
Qed.

Lemma float_pow_half x : (0 <= x)%R → float_pow x (1 / 2) = sqrt x.
Proof.
  intros Hx. unfold float_pow.
  destruct (Req_dec_T x 0) as [->|Hne].
  - destruct (Req_dec_T (1 / 2) 0) as [Hy|_]; [lra|]. by rewrite sqrt_0.
  - replace (1 / 2)%R with (/ 2)%R by lra.
    apply Rpower_sqrt. lra.
Qed.

Lemma np_mean_squares e : np_mean (np_power_int e 2) = Spec.MSE e.
Proof.
  unfold np_mean, Spec.MSE, Spec.mean. by rewrite np_power_int_2, np_sum_spec.
Qed.

(** ** The insight aggregator *)

(** With a numeric [errors] column and a supported error type, the call
    returns the one-row frame built from the chosen entry of [error_dict]. *)
Lemma create_insights_numeric group group_var error_type dt e :
  assoc_lookup "errors" (columns (gframe group)) = Some (Numeric dt e) →
  error_type ∈ ["MSE"; "RMSE"; "MAE"; "RAW"] →
  ∃ stat,
    assoc_lookup error_type (error_dict e (nrows (gframe group))) = Some stat ∧
    create_insights group group_var error_type =
      Ok {| columns := [("groupByValue", scalar_column (gname group));
                        ("groupByVarName", scalar_column (opt_scalar group_var));
                        (error_type, Numeric float64 [stat]);
                        ("Total", Numeric float64 [INR (nrows (gframe group))])];
            nrows := 1 |}.
Proof.
  intros Herr Het. unfold create_insights, getitem.
  rewrite bool_decide_eq_true_2 by done. rewrite Herr. simpl.
  rewrite !elem_of_cons, elem_of_nil in Het.
  destruct Het as [->|[->|[->|[->|[]]]]];
    (eexists; split; [reflexivity|]); reflexivity.
Qed.




(** C7. For a group with a numeric [errors] column and a supported error
    type, [create_insights] returns a frame of one row and the four columns
    groupByValue, groupByVarName, <error_type> and Total, where Total holds
    the number of rows of the group as a float. *)
Theorem create_insights_shape group group_var error_type dt e :
  assoc_lookup "errors" (columns (gframe group)) = Some (Numeric dt e) →
  error_type ∈ ["MSE"; "RMSE"; "MAE"; "RAW"] →
  ∃ out,
    create_insights group group_var error_type = Ok out ∧
    frame_wf out ∧
    shape out = (1, 4) ∧
    column_names out ≡ₚ ["groupByValue"; "groupByVarName"; error_type; "Total"] ∧
    NoDup (column_names out) ∧
    assoc_lookup "Total" (columns out)
      = Some (Numeric float64 [INR (nrows (gframe group))]).
Proof.
  intros Herr Het.
  destruct (create_insights_numeric group group_var error_type dt e Herr Het)
    as (stat & _ & Hout).
  rewrite Hout. eexists. split; [reflexivity|].
  split; [by destruct (gname group), group_var; repeat constructor|].
  split; [reflexivity|]. split; [reflexivity|].
  rewrite !elem_of_cons, elem_of_nil in Het.
  destruct Het as [->|[->|[->|[->|[]]]]];
    (split; [|reflexivity]); unfold column_names; simpl;
    apply (bool_decide_unpack _); reflexivity.
Qed.

Lemma create_insights_shape_witness :
  ∃ out,
    create_insights test_group (Some "groupvar") "MSE" = Ok out ∧
    frame_wf out ∧
    shape out = (1, 4) ∧
    column_names out ≡ₚ ["groupByValue"; "groupByVarName"; "MSE"; "Total"] ∧
    NoDup (column_names out) ∧
    assoc_lookup "Total" (columns out) = Some (Numeric float64 [INR 4]).
Proof.
  apply (create_insights_shape test_group (Some "groupvar") "MSE" int64
           [0; 1; 2; 3]%R).
  - reflexivity.
  - rewrite !elem_of_cons. tauto.
Defined.

(** C6, as the code has it. For a group without an [errors] column and a
    supported error type, [create_insights] fails with the missing-column
    error ([KeyError]) whose text contains the column name [errors]. *)
Theorem create_insights_missing_errors group group_var error_type :
  assoc_lookup "errors" (columns (gframe group)) = None →
  error_type ∈ ["MSE"; "RMSE"; "MAE"; "RAW"] →
  create_insights group group_var error_type = Raise (KeyError "errors") ∧
  raises_missing_column (create_insights group group_var error_type) "errors".
Proof.
  intros Herr Het.
  assert (create_insights group group_var error_type = Raise (KeyError "errors"))
    as Hr.
  { unfold create_insights, getitem.
    rewrite bool_decide_eq_true_2 by done. by rewrite Herr. }
  split; [exact Hr|]. rewrite Hr. by exists "errors".
Qed.

Lemma create_insights_missing_errors_witness :
  create_insights test_group_random (Some "groupvar") "MSE"
    = Raise (KeyError "errors") ∧
  raises_missing_column
    (create_insights test_group_random (Some "groupvar") "MSE") "errors".
Proof.
  apply (create_insights_missing_errors test_group_random (Some "groupvar") "MSE").
  - reflexivity.
  - rewrite !elem_of_cons. tauto.
Defined.

(** C6, as stated (for every error type), fails: with an error type outside
    the supported set the assertion on [error_type] fires before the column
    is looked up, and the call fails with [AssertionError] instead. *)
Lemma create_insights_missing_errors_unsupported_type :
  create_insights test_group_random (Some "groupvar") "FOO"
    = Raise (AssertionError create_insights_assert_msg) ∧
  ¬ raises_missing_column
      (create_insights test_group_random (Some "groupvar") "FOO") "errors".
Proof.
  assert (create_insights test_group_random (Some "groupvar") "FOO"
          = Raise (AssertionError create_insights_assert_msg)) as Hr
    by reflexivity.
  split; [exact Hr|]. rewrite Hr. intros (k & Hk & _). discriminate Hk.
Qed.

(** C8, as the code has it. For an error type outside MSE, RMSE, MAE, RAW,
    [create_insights] fails, whatever the group, with an [AssertionError]
    whose fixed text names the four supported error types; it is not the
    catalogue's [error_type_error]. *)
Theorem create_insights_unsupported_error_type group group_var error_type :
  error_type ∉ ["MSE"; "RMSE"; "MAE"; "RAW"] →
  create_insights group group_var error_type
    = Raise (AssertionError create_insights_assert_msg) ∧
  Forall (λ v, str_contains v (exn_str (AssertionError create_insights_assert_msg)) = true)
         ["MSE"; "RMSE"; "MAE"; "RAW"] ∧
  AssertionError create_insights_assert_msg ≠ ErrorWarningMsgs.error_type_error.
Proof.
  intros Het. split; [|split].
  - unfold create_insights. by rewrite bool_decide_eq_false_2.
  - repeat constructor.
  - discriminate.
Qed.

Lemma create_insights_unsupported_error_type_witness :
  create_insights test_group None "FOO"
    = Raise (AssertionError create_insights_assert_msg) ∧
  Forall (λ v, str_contains v (exn_str (AssertionError create_insights_assert_msg)) = true)
         ["MSE"; "RMSE"; "MAE"; "RAW"] ∧
  AssertionError create_insights_assert_msg ≠ ErrorWarningMsgs.error_type_error.
Proof.
  apply (create_insights_unsupported_error_type test_group None "FOO").
  rewrite !elem_of_cons, elem_of_nil.
  intros [H|[H|[H|[H|[]]]]]; discriminate H.
Defined.

(** C8, as stated, fails: the text of the error raised for the unsupported
    error type FOO does not contain the offending value. *)
Lemma create_insights_error_omits_offending_value :
  ¬ surfaces_value_and_valid_set
      (create_insights test_group None "FOO") "FOO" ["MSE"; "RMSE"; "MAE"; "RAW"].
Proof.
  intros (e & He & Hoff & _).
  assert (create_insights test_group None "FOO"
          = Raise (AssertionError create_insights_assert_msg)) as Hr
    by reflexivity.
  rewrite Hr in He. injection He as <-.
  vm_compute in Hoff. discriminate Hoff.
Qed.

(** C3, as the code has it. Whatever the model type, the table and the error
    type, [create_accuracy] with [groupby=None] fails before any group is
    aggregated: the table library refuses the grouping with its own
    [TypeError]. *)
Theorem create_accuracy_groupby_none model_type cat_df error_type :
  create_accuracy model_type cat_df error_type None
    = Raise (TypeError "You have to supply one of 'by' and 'level'") ∧
  ∀ aggregate,
    groupby_apply cat_df None aggregate
      = Raise (TypeError "You have to supply one of 'by' and 'level'").
Proof.
  split.
  - unfold create_accuracy, groupby_apply, groupby. reflexivity.
  - intros aggregate. unfold groupby_apply, groupby. reflexivity.
Qed.

(** C3, as stated, fails: the error raised for [groupby=None] is not the
    catalogue's [groupbyvars_error]. *)
Lemma create_accuracy_groupby_none_not_groupbyvars_error :
  create_accuracy "regression" accuracy_setup "MSE" None
    ≠ Raise ErrorWarningMsgs.groupbyvars_error.
Proof. intros H. vm_compute in H. discriminate H. Qed.



(** A classification request for MSE is answered with the RAW table. *)
Lemma create_accuracy_classification_any_request cat_df error_type groupby :
  create_accuracy "classification" cat_df error_type groupby
    = create_accuracy "classification" cat_df "RAW" groupby.
Proof. reflexivity. Qed.

Example create_accuracy_classification_setup :
  create_accuracy "classification" accuracy_setup "MSE" (Some "col2")
    = Ok {| columns :=
              [("groupByValue", Object [Some "a"; Some "b"]);
               ("groupByVarName", Object [Some "col2"; Some "col2"]);
               ("RAW", Numeric float64 [np_mean [1; 2]; np_mean [3; 4]]%R);
               ("Total", Numeric float64 [INR 2; INR 2])];
            nrows := 2 |}.
Proof. reflexivity. Qed.

Example create_accuracy_regression_setup_shape :
  match create_accuracy "regression" accuracy_setup "MSE" (Some "col2") with
  | Ok out => shape out = (2, 4)
  | Raise _ => False
  end.
Proof. reflexivity. Qed.

Lemma filter_kind_none (include : list dtype_kind) (cols : list (string * column)) :
  Forall (λ nc, kind_of nc.2 ∉ include) cols →
  filter (λ nc, kind_of nc.2 ∈ include) cols = [].
Proof.
  induction 1 as [|nc cols Hnc _ IH]; [done|].
  rewrite filter_cons. by destruct (decide _).
Qed.

(** A loop of [loc_update]s with an idempotent [f] changes exactly the
    columns whose name is in the list. *)
Lemma loc_update_foldl (f : column → column) names : ∀ df,
  (∀ c, f (f c) = f c) →
  foldl (λ df name, loc_update name f df) df names
    = {| columns := (λ nc, if decide (nc.1 ∈ names) then (nc.1, f nc.2) else nc)
                      <$> columns df;
         nrows := nrows df |}.
Proof.
  induction names as [|name names IH]; intros [cols n] Hf; simpl.
  - f_equal. symmetry. etrans; [|apply list_fmap_id]. apply list_fmap_ext.
    by intros i nc _.
  - rewrite IH by done. unfold loc_update. simpl. f_equal.
    rewrite <- list_fmap_compose. apply list_fmap_ext. intros i [k c] _. simpl.
    destruct (decide (k = name)) as [->|Hk]; simpl.
    + rewrite (decide_True (P := name ∈ name :: names)) by left.
      destruct (decide (name ∈ names)); by rewrite ?Hf.
    + destruct (decide (k ∈ names)) as [Hin|Hin].
      * by rewrite decide_True by (by right).
      * rewrite decide_False; [done|].
        rewrite elem_of_cons. by intros [|].
Qed.

Lemma pd_Categorical_idemp c : pd_Categorical (pd_Categorical c) = pd_Categorical c.
Proof. by destruct c. Qed.

Lemma cat_codes_idemp c : cat_codes (cat_codes c) = cat_codes c.
Proof. by destruct c. Qed.

(** The output invariant of the encoder: no text or categorical column is
    left, and the names and the number of rows are those of the input. *)
Lemma convert_categorical_independent_output dataframe :
  let out := (convert_categorical_independent dataframe).1 in
  Forall (λ nc, kind_of nc.2 = KNumber) (columns out) ∧
  column_names out = column_names dataframe ∧
  nrows out = nrows dataframe.
Proof.
  destruct dataframe as [cols n].
  unfold convert_categorical_independent, copy_deep. simpl.
  rewrite !loc_update_foldl by auto using pd_Categorical_idemp, cat_codes_idemp.
  simpl.
  set (names := column_names (select_dtypes [KObject; KCategory] _)).
  set (cols1 := (λ nc, if decide (nc.1 ∈ names) then _ else nc) <$> cols).
  assert (Forall (λ nc, kind_of nc.2 ≠ KObject) cols1) as Hmid.
  { apply Forall_fmap, Forall_forall. intros [k c] Hin. simpl.
    destruct (decide (k ∈ names)) as [Hk|Hk]; simpl; [by destruct c|].
    intros Hc. apply Hk. unfold names, column_names, select_dtypes. simpl.
    apply list_elem_of_fmap. exists (k, c). split; [done|].
    apply list_elem_of_filter. split; [|done]. simpl. rewrite Hc. constructor. }
  split; [|split; [|done]].
  - apply Forall_fmap, Forall_forall. intros [k c] Hin. simpl.
    rewrite Forall_forall in Hmid. specialize (Hmid _ Hin). simpl in Hmid.
    destruct (decide (k ∈ _)) as [Hk|Hk]; simpl; [by destruct c|].
    destruct c as [dt xs|xs|cats codes]; simpl; [done|done|].
    exfalso. apply Hk. unfold column_names, select_dtypes. simpl.
    apply list_elem_of_fmap. exists (k, Category cats codes). split; [done|].
    apply list_elem_of_filter. split; [|done]. simpl. constructor.
  - unfold column_names, cols1. simpl. rewrite <- !list_fmap_compose.
    apply list_fmap_ext. intros i [k c] _. simpl.
    destruct (decide (k ∈ names)); simpl; by destruct (decide _).
Qed.

Example convert_categorical_independent_text :
  convert_categorical_independent
    {| columns := [("kind", Object [Some "red"; Some "white"; None; Some "red"]);
                   ("x", Numeric float64 [1; 2; 3; 4]%R)];
       nrows := 4 |}
  = ({| columns := [("kind", Numeric int8 [IZR 0; IZR 1; IZR (-1); IZR 0]);
                    ("x", Numeric float64 [1; 2; 3; 4]%R)];
        nrows := 4 |}, []).
Proof. reflexivity. Qed.

(** C9. On a table whose columns are all numeric the encoder returns an equal
    table and succeeds, after sending the no-categorical-columns warning to
    the log and to the warnings channel. *)
Theorem convert_categorical_independent_numeric dataframe :
  Forall (λ nc, kind_of nc.2 = KNumber) (columns dataframe) →
  convert_categorical_independent dataframe
    = (dataframe, [LoggingWarn no_categorical_msg; UserWarning no_categorical_msg]).
Proof.
  intros Hnum. destruct dataframe as [cols n]. simpl in Hnum.
  unfold convert_categorical_independent, copy_deep, select_dtypes, column_names,
    shape. simpl.
  rewrite (filter_kind_none [KObject; KCategory] cols); simpl.
  - rewrite (filter_kind_none [KCategory] cols); [done|].
    eapply Forall_impl; [exact Hnum|]. intros nc ->.
    rewrite !elem_of_cons, elem_of_nil. by intros [|[]].
  - eapply Forall_impl; [exact Hnum|]. intros nc ->.
    rewrite !elem_of_cons, elem_of_nil. by intros [|[|[]]].
Qed.

Lemma convert_categorical_independent_numeric_witness :
  convert_categorical_independent numeric_frame
    = (numeric_frame, [LoggingWarn no_categorical_msg; UserWarning no_categorical_msg]).
Proof.
  apply (convert_categorical_independent_numeric numeric_frame).
  repeat constructor.
Defined.

(** ** Heap computations *)

Lemma mbind_M_ok {A B} (m : M A) (k : A → M B) h a h' :
  m h = (Ok a, h') → (m ≫= k) h = k a h'.
Proof. intros Hm. unfold mbind, M_bind. by rewrite Hm. Qed.

Lemma alloc_fresh o h :
  ∃ l, alloc o h = (Ok (VRef l), <[l := o]> h) ∧ h !! l = None.
Proof.
  exists (fresh (dom h)). split; [done|].
  apply not_elem_of_dom, is_fresh.
Qed.

(** Allocation only adds objects. *)
Lemma mapM_alloc_extends {A} (f : A → heap_obj) (xs : list A) h :
  ∃ vs h', mapM (λ x, alloc (f x)) xs h = (Ok vs, h') ∧ h ⊆ h'.
Proof.
  revert h. induction xs as [|x xs IH]; intros h; simpl.
  - by exists [], h.
  - destruct (alloc_fresh (f x) h) as (l & Hal & Hl).
    destruct (IH (<[l := f x]> h)) as (vs & h' & Hvs & Hsub).
    exists (VRef l :: vs), h'. split.
    + erewrite mbind_M_ok by exact Hal.
      erewrite mbind_M_ok by exact Hvs. done.
    + etrans; [|exact Hsub]. by apply insert_subseteq.
Qed.

Lemma to_dict_records_extends df h :
  ∃ l h', to_dict_records df h = (Ok (VRef l), h') ∧ h ⊆ h'.
Proof.
  unfold to_dict_records.
  destruct (mapM_alloc_extends
              (λ i, HDict (list_to_map
                 ((λ nc, (nc.1, pyval_of_scalar (column_cell nc.2 i))) <$> columns df)))
              (seq 0 (nrows df)) h) as (vs & h1 & Hvs & Hsub1).
  destruct (alloc_fresh (HList vs) h1) as (l & Hal & Hl).
  exists l, (<[l := HList vs]> h1). split.
  - erewrite mbind_M_ok by exact Hvs. exact Hal.
  - etrans; [exact Hsub1|]. by apply insert_subseteq.
Qed.

Lemma alloc_eq o h :
  alloc o h = (Ok (VRef (fresh (dom h))), <[fresh (dom h) := o]> h).
Proof. reflexivity. Qed.

(** Filling in [Data]: the last steps of every successful run of [to_json],
    from a heap where [json_out] is the dict [d0]. *)
Lemma to_json_tail dataframe l (d0 : gmap string pyval) h :
  h !! l = Some (HDict d0) →
  ∃ ldata h',
    (data ← to_dict_records dataframe;
     setitem_str (VRef l) "Data" data;;
     mret (VRef l)) h = (Ok (VRef l), h') ∧
    h' !! l = Some (HDict (<["Data" := VRef ldata]> d0)).
Proof.
  intros Hl.
  destruct (to_dict_records_extends dataframe h) as (ldata & h1 & Hrec & Hsub).
  assert (h1 !! l = Some (HDict d0)) as Hl1 by (by eapply lookup_weaken).
  exists ldata, (<[l := HDict (<["Data" := VRef ldata]> d0)]> h1). split.
  - erewrite mbind_M_ok by exact Hrec.
    unfold mbind, M_bind, setitem_str. rewrite Hl1. done.
  - apply lookup_insert_eq.
Qed.

(** C10. For every table and every valid vartype, [to_json] with html_type
    error or percentile returns a new dict whose keys are exactly Type and
    Data; with html_type sensitivity the keys are Type, Change and Data. So
    the key Change is there for sensitivity only. *)
Theorem to_json_keys round2 float_str dataframe vartype html_type incremental_val h :
  vartype ∈ ["Continuous"; "Categorical"; "Accuracy"; "Percentile"] →
  html_type ∈ ["error"; "sensitivity"; "percentile"] →
  ∃ l d h',
    to_json round2 float_str dataframe vartype html_type incremental_val h
      = (Ok (VRef l), h') ∧
    h !! l = None ∧
    h' !! l = Some (HDict d) ∧
    d !! "Type" = Some (VStr vartype) ∧
    (html_type ∈ ["error"; "percentile"] → dom d = {["Type"; "Data"]}) ∧
    (html_type = "sensitivity" → dom d = {["Type"; "Change"; "Data"]}) ∧
    ("Change" ∈ dom d ↔ html_type = "sensitivity").
Proof.
  intros Hvt Hht. unfold to_json.
  rewrite (bool_decide_eq_true_2 _ Hvt), (bool_decide_eq_true_2 _ Hht).
  simpl negb. cbv iota.
  assert (h !! fresh (dom h) = None) as Hfresh
    by apply not_elem_of_dom, is_fresh.
  rewrite !elem_of_cons, elem_of_nil in Hht.
  destruct Hht as [->|[->|[->|[]]]].
  - (* error *)
    destruct (to_json_tail dataframe (fresh (dom h)) {[ "Type" := VStr vartype ]}
                (<[fresh (dom h) := HDict {[ "Type" := VStr vartype ]}]> h)
                (lookup_insert_eq _ _ _)) as (ldata & h' & Heq & Hl').
    eexists _, _, h'. split; [exact Heq|]. split; [exact Hfresh|].
    split; [exact Hl'|]. split; [by simplify_map_eq|].
    rewrite dom_insert_L, dom_singleton_L.
    split; [intros _; set_solver|]. split; [discriminate|].
    rewrite elem_of_union, !elem_of_singleton.
    split; [intros [|]; discriminate | discriminate].
  - (* sensitivity *)
    set (iv := match incremental_val with IFloat x => IFloat (round2 x) | v => v end).
    destruct (to_json_tail dataframe (fresh (dom h))
                (<[ "Change" := VStr (py_str float_str iv) ]> {[ "Type" := VStr vartype ]})
                (<[fresh (dom h) :=
                     HDict (<[ "Change" := VStr (py_str float_str iv) ]>
                              {[ "Type" := VStr vartype ]})]> h)
                (lookup_insert_eq _ _ _)) as (ldata & h' & Heq & Hl').
    eexists _, _, h'. split; [exact Heq|]. split; [exact Hfresh|].
    split; [exact Hl'|]. split; [by simplify_map_eq|].
    rewrite !dom_insert_L, dom_singleton_L.
    split; [|split; [intros _; set_solver|split; [done|intros _; set_solver]]].
    rewrite !elem_of_cons, elem_of_nil. intros [|[|[]]]; discriminate.
  - (* percentile *)
    destruct (to_json_tail dataframe (fresh (dom h)) {[ "Type" := VStr vartype ]}
                (<[fresh (dom h) := HDict {[ "Type" := VStr vartype ]}]> h)
                (lookup_insert_eq _ _ _)) as (ldata & h' & Heq & Hl').
    eexists _, _, h'. split; [exact Heq|]. split; [exact Hfresh|].
    split; [exact Hl'|]. split; [by simplify_map_eq|].
    rewrite dom_insert_L, dom_singleton_L.
    split; [intros _; set_solver|]. split; [discriminate|].
    rewrite elem_of_union, !elem_of_singleton.
    split; [intros [|]; discriminate | discriminate].
Qed.

Lemma to_json_keys_witness :
  ∃ l d h',
    to_json (λ x, x) (λ _, "0.1") payload_table "Accuracy" "error" INone ∅
      = (Ok (VRef l), h') ∧
    (∅ : heap) !! l = None ∧
    h' !! l = Some (HDict d) ∧
    d !! "Type" = Some (VStr "Accuracy") ∧
    ("error" ∈ ["error"; "percentile"] → dom d = {["Type"; "Data"]}) ∧
    ("error" = "sensitivity" → dom d = {["Type"; "Change"; "Data"]}) ∧
    ("Change" ∈ dom d ↔ "error" = "sensitivity").
Proof.
  apply (to_json_keys (λ x, x) (λ _, "0.1") payload_table "Accuracy" "error" INone ∅).
  - rewrite !elem_of_cons. tauto.
  - rewrite !elem_of_cons. tauto.
Defined.

(** ** Flattening payloads *)

Lemma payload_data_inv h v items :
  payload_data h v = Some items →
  ∃ p d l, v = VRef p ∧ h !! p = Some (HDict d) ∧
           d !! "Data" = Some (VRef l) ∧ h !! l = Some (HList items).
Proof.
  unfold payload_data, data_loc, payload_dict. intros H.
  destruct v as [| | |p]; try discriminate.
  destruct (h !! p) as [[d|]|] eqn:Hp; try discriminate.
  destruct (d !! "Data") as [[| | |l]|] eqn:Hd; try discriminate.
  destruct (h !! l) as [[|its]|] eqn:Hl; try discriminate.
  injection H as <-. by exists p, d, l.
Qed.

Lemma data_loc_inv h v l :
  data_loc h v = Some l →
  ∃ p d, v = VRef p ∧ h !! p = Some (HDict d) ∧ d !! "Data" = Some (VRef l).
Proof.
  unfold data_loc, payload_dict. intros H.
  destruct v as [| | |p]; try discriminate.
  destruct (h !! p) as [[d|]|] eqn:Hp; try discriminate.
  destruct (d !! "Data") as [[| | |l']|] eqn:Hd; try discriminate.
  injection H as <-. by exists p, d.
Qed.

(** Growing the list at [l0] leaves every dict as it was. *)
Lemma payload_dict_grow h l0 acc new v :
  h !! l0 = Some (HList acc) →
  payload_dict (<[l0 := HList new]> h) v = payload_dict h v.
Proof.
  intros Hl0. unfold payload_dict. destruct v as [| | |p]; try done.
  destruct (decide (p = l0)) as [->|Hne].
  - by rewrite lookup_insert_eq, Hl0.
  - by rewrite lookup_insert_ne.
Qed.

Lemma data_loc_grow h l0 acc new v :
  h !! l0 = Some (HList acc) →
  data_loc (<[l0 := HList new]> h) v = data_loc h v.
Proof. intros Hl0. unfold data_loc. by erewrite payload_dict_grow. Qed.

(** ... and every [Data] list held in another list object. *)
Lemma payload_data_grow h l0 acc new v :
  h !! l0 = Some (HList acc) →
  data_loc h v ≠ Some l0 →
  payload_data (<[l0 := HList new]> h) v = payload_data h v.
Proof.
  intros Hl0 Hne. unfold payload_data. erewrite data_loc_grow by done.
  destruct (data_loc h v) as [l|]; [|done].
  rewrite lookup_insert_ne; [done|congruence].
Qed.

(** One round of the loop: the first payload's list grows by the items of
    [val]'s list (which may be that same list). *)
Lemma flatten_step_spec h copydict p0 d0 l0 acc val items :
  copydict !! 0 = Some (VRef p0) →
  h !! p0 = Some (HDict d0) →
  d0 !! "Data" = Some (VRef l0) →
  h !! l0 = Some (HList acc) →
  payload_data h val = Some items →
  flatten_step copydict val h = (Ok (), <[l0 := HList (acc ++ items)]> h).
Proof.
  intros H0 Hp0 Hd0 Hl0 Hval.
  apply payload_data_inv in Hval as (p & d & l & -> & Hp & Hd & Hl).
  unfold flatten_step, mbind, M_bind, list_getitem, getitem_str, extend_method,
    extend_call, iterate, list_grow, mbind, M_bind.
  rewrite H0, Hp0, Hd0, Hl0, Hp, Hd, Hl, Hl0. done.
Qed.

(** The loop over payloads none of which shares the first payload's list,
    started when that list holds [acc]. *)
Lemma flatten_loop_spec h copydict p0 d0 l0 acc0 rest datas :
  copydict !! 0 = Some (VRef p0) →
  h !! p0 = Some (HDict d0) →
  d0 !! "Data" = Some (VRef l0) →
  h !! l0 = Some (HList acc0) →
  Forall2 (λ v items, payload_data h v = Some items) rest datas →
  Forall (λ v, data_loc h v ≠ Some l0) rest →
  ∀ acc,
    for_in rest (flatten_step copydict) (<[l0 := HList acc]> h)
      = (Ok (), <[l0 := HList (acc ++ concat datas)]> h).
Proof.
  intros H0 Hp0 Hd0 Hl0 Hdatas. assert (p0 ≠ l0) as Hpl by congruence.
  induction Hdatas as [|val items rest datas Hval _ IH]; intros Hne acc; simpl.
  - by rewrite app_nil_r.
  - apply Forall_cons in Hne as [Hne1 Hne].
    erewrite mbind_M_ok; [by rewrite IH, app_assoc|].
    erewrite (flatten_step_spec _ copydict p0 d0 l0 acc val items); try done.
    + by rewrite insert_insert_eq.
    + by rewrite lookup_insert_ne.
    + apply lookup_insert_eq.
    + by erewrite payload_data_grow.
Qed.

(** [flatten_json] on a first payload [p0] followed by [rest], where no
    payload after the second shares the first payload's list: the first
    payload is returned and its list has grown, in place, by the items of
    the others. *)
Lemma flatten_json_spec h p0 d0 l0 acc0 rest datas :
  h !! p0 = Some (HDict d0) →
  d0 !! "Data" = Some (VRef l0) →
  h !! l0 = Some (HList acc0) →
  Forall2 (λ v items, payload_data h v = Some items) rest datas →
  Forall (λ v, data_loc h v ≠ Some l0) (drop 1 rest) →
  flatten_json (VRef p0 :: rest) h
    = (Ok (VRef p0), <[l0 := HList (acc0 ++ concat datas)]> h).
Proof.
  intros Hp0 Hd0 Hl0 Hdatas Hne. assert (p0 ≠ l0) as Hpl by congruence.
  unfold flatten_json.
  destruct Hdatas as [|val items rest datas Hval Hdatas].
  - simpl. unfold mbind, M_bind, list_getitem, assert_dict. simpl.
    rewrite Hp0, app_nil_r, insert_id by done. done.
  - rewrite decide_True by (simpl; lia).
    change (drop 1 (VRef p0 :: val :: rest)) with (val :: rest).
    simpl in Hne. rewrite drop_0 in Hne.
    assert (for_in (val :: rest) (flatten_step (VRef p0 :: val :: rest)) h
            = (Ok (), <[l0 := HList (acc0 ++ concat (items :: datas))]> h)) as Hloop.
    { simpl. erewrite mbind_M_ok
        by (by eapply (flatten_step_spec h _ p0 d0 l0 acc0 val items)).
      erewrite (flatten_loop_spec h _ p0 d0 l0 acc0 rest datas); try done.
      by rewrite app_assoc. }
    erewrite mbind_M_ok
      by (erewrite mbind_M_ok by exact Hloop; reflexivity).
    unfold mbind, M_bind, assert_dict, is_dict.
    rewrite lookup_insert_ne, Hp0 by done. reflexivity.
Qed.

Lemma payload_data_after_grow h p0 d0 l0 acc0 new :
  h !! p0 = Some (HDict d0) →
  d0 !! "Data" = Some (VRef l0) →
  h !! l0 = Some (HList acc0) →
  payload_data (<[l0 := HList new]> h) (VRef p0) = Some new.
Proof.
  intros Hp0 Hd0 Hl0. assert (p0 ≠ l0) as Hpl by congruence.
  unfold payload_data, data_loc, payload_dict.
  by rewrite lookup_insert_ne, Hp0, Hd0, lookup_insert_eq.
Qed.

(** C2, as the code has it. For a non-empty sequence of payloads in which no
    payload from the third on shares its [Data] list object with the first,
    [flatten_json] returns the first payload, its other fields as they were
    and its [Data] holding the concatenation of all the inputs' [Data] lists
    in input order. In particular a one-element sequence gives back its
    element with nothing changed, and [P1, P2] with [Data] of lengths [n1]
    and [n2] gives [Data] of length [n1 + n2]. *)
Theorem flatten_json_concatenates h dictlist first :
  dictlist !! 0 = Some first →
  Forall (λ v, is_Some (payload_data h v)) dictlist →
  Forall (λ v, data_loc h v ≠ data_loc h first) (drop 2 dictlist) →
  flatten_concatenates h dictlist ∧
  (dictlist = [first] → flatten_json dictlist h = (Ok first, h)) ∧
  (∀ p2 data1 data2,
     dictlist = [first; p2] →
     payload_data h first = Some data1 →
     payload_data h p2 = Some data2 →
     ∃ h' data,
       flatten_json dictlist h = (Ok first, h') ∧
       payload_data h' first = Some data ∧
       length data = length data1 + length data2 ∧
       payload_dict h' first = payload_dict h first).
Proof.
  intros H0 Hall Hne.
  destruct dictlist as [|first' rest]; [discriminate|].
  injection H0 as ->.
  apply Forall_cons in Hall as [[acc0 Hfirst] Hrest].
  apply mapM_is_Some_2 in Hrest as [datas Hdatas].
  pose proof Hdatas as Hmap. apply mapM_Some_1 in Hdatas.
  pose proof Hfirst as Hfirst'.
  apply payload_data_inv in Hfirst' as (p0 & d0 & l0 & -> & Hp0 & Hd0 & Hl0).
  assert (data_loc h (VRef p0) = Some l0) as Hloc.
  { unfold data_loc, payload_dict. by rewrite Hp0, Hd0. }
  rewrite Hloc in Hne. change (drop 2 (VRef p0 :: rest)) with (drop 1 rest) in Hne.
  pose proof (flatten_json_spec h p0 d0 l0 acc0 rest datas Hp0 Hd0 Hl0 Hdatas Hne)
    as Hflat.
  assert (flatten_concatenates h (VRef p0 :: rest)) as Hconc.
  { exists (VRef p0), (acc0 :: datas), (<[l0 := HList (acc0 ++ concat datas)]> h).
    split; [done|]. split; [by simpl; rewrite Hfirst; simpl; rewrite Hmap|].
    split; [exact Hflat|]. split.
    - by eapply payload_data_after_grow.
    - by eapply payload_dict_grow. }
  split; [exact Hconc|]. split.
  - intros Heq. injection Heq as ->.
    apply Forall2_nil_inv_l in Hdatas as ->.
    rewrite Hflat. simpl. by rewrite app_nil_r, insert_id.
  - intros p2 data1 data2 Heq Hd1 Hd2. injection Heq as ->.
    apply Forall2_cons_inv_l in Hdatas as (items & datas' & Hp2 & Hnil & ->).
    apply Forall2_nil_inv_l in Hnil as ->.
    assert (data1 = acc0) as -> by congruence.
    assert (data2 = items) as -> by congruence.
    eexists _, _. split; [exact Hflat|]. split; [by eapply payload_data_after_grow|].
    split; [|by eapply payload_dict_grow].
    simpl. rewrite app_nil_r. apply length_app.
Qed.

Lemma flatten_json_concatenates_witness :
  flatten_concatenates two_payloads [VRef 1%positive; VRef 2%positive] ∧
  ([VRef 1%positive; VRef 2%positive] = [VRef 1%positive] →
   flatten_json [VRef 1%positive; VRef 2%positive] two_payloads
     = (Ok (VRef 1%positive), two_payloads)) ∧
  (∀ p2 data1 data2,
     [VRef 1%positive; VRef 2%positive] = [VRef 1%positive; p2] →
     payload_data two_payloads (VRef 1%positive) = Some data1 →
     payload_data two_payloads p2 = Some data2 →
     ∃ h' data,
       flatten_json [VRef 1%positive; VRef 2%positive] two_payloads
         = (Ok (VRef 1%positive), h') ∧
       payload_data h' (VRef 1%positive) = Some data ∧
       length data = length data1 + length data2 ∧
       payload_dict h' (VRef 1%positive)
         = payload_dict two_payloads (VRef 1%positive)).
Proof.
  apply (flatten_json_concatenates two_payloads
           [VRef 1%positive; VRef 2%positive] (VRef 1%positive)).
  - reflexivity.
  - repeat constructor; vm_compute; eauto.
  - constructor.
Defined.

(** C2, as stated (for every non-empty sequence), fails: when the first
    payload occurs again as the third, its list, already grown by the second
    payload's items, is appended to itself. [Data] ends as [a; b; a; b], not
    as the concatenation [a; b; a] of the inputs' lists. *)
Lemma flatten_json_repeated_first_payload :
  ¬ flatten_concatenates two_payloads
      [VRef 1%positive; VRef 2%positive; VRef 1%positive].
Proof.
  intros (first & datas & h' & H0 & Hdatas & Hflat & Hdata & _).
  injection H0 as <-.
  vm_compute in Hdatas. injection Hdatas as <-.
  vm_compute in Hflat. injection Hflat as <-.
  vm_compute in Hdata. discriminate Hdata.
Qed.

Example flatten_json_repeated_first_payload_data :
  ∃ h', flatten_json [VRef 1%positive; VRef 2%positive; VRef 1%positive] two_payloads
          = (Ok (VRef 1%positive), h') ∧
        payload_data h' (VRef 1%positive)
          = Some [VStr "a"; VStr "b"; VStr "a"; VStr "b"].
Proof. eexists. split; vm_compute; reflexivity. Qed.

(** ** Inputs are not left alone by [flatten_json] *)

(** Whenever a later payload brings an item, the [Data] list of the caller's
    first payload is not, after the call, what it was before. *)
Lemma flatten_json_grows_first_input h p0 d0 l0 acc0 rest datas :
  h !! p0 = Some (HDict d0) →
  d0 !! "Data" = Some (VRef l0) →
  h !! l0 = Some (HList acc0) →
  Forall2 (λ v items, payload_data h v = Some items) rest datas →
  Forall (λ v, data_loc h v ≠ Some l0) (drop 1 rest) →
  concat datas ≠ [] →
  ∃ h', flatten_json (VRef p0 :: rest) h = (Ok (VRef p0), h') ∧
        payload_data h (VRef p0) = Some acc0 ∧
        payload_data h' (VRef p0) = Some (acc0 ++ concat datas) ∧
        payload_data h' (VRef p0) ≠ payload_data h (VRef p0).
Proof.
  intros Hp0 Hd0 Hl0 Hdatas Hne Hnew.
  assert (payload_data h (VRef p0) = Some acc0) as Hbefore.
  { unfold payload_data, data_loc, payload_dict. by rewrite Hp0, Hd0, Hl0. }
  assert (payload_data (<[l0 := HList (acc0 ++ concat datas)]> h) (VRef p0)
          = Some (acc0 ++ concat datas)) as Hafter
    by (by eapply payload_data_after_grow).
  eexists. split; [by eapply flatten_json_spec|].
  split; [exact Hbefore|]. split; [exact Hafter|].
  rewrite Hbefore, Hafter. intros Heq. injection Heq as Heq.
  apply (f_equal length) in Heq. rewrite length_app in Heq.
  destruct (concat datas); [done|]. simpl in Heq. lia.
Qed.

(** C5 fails on [flatten_json]: the payload returned for [P1, P2] is the
    caller's [P1] itself, and its [Data] list, [a] before the call, holds
    [a; b] after it. The copy made of the input list is a new list of the
    same references. *)
Lemma flatten_json_mutates_first_payload :
  ∃ h', flatten_json [VRef 1%positive; VRef 2%positive] two_payloads
          = (Ok (VRef 1%positive), h') ∧
        payload_data two_payloads (VRef 1%positive) = Some [VStr "a"] ∧
        payload_data h' (VRef 1%positive) = Some [VStr "a"; VStr "b"] ∧
        h' ≠ two_payloads.
Proof.
  eexists. split; [vm_compute; reflexivity|].
  split; [vm_compute; reflexivity|]. split; [vm_compute; reflexivity|].
  intros Heq.
  apply (f_equal (λ h, h !! 3%positive)) in Heq.
  vm_compute in Heq. discriminate Heq.
Qed.

(** * Further properties *)

(** ** The statistics of one group *)

Lemma error_dict_statistic e n error_type :
  n = length e → 0 < length e →
  error_type ∈ ["MSE"; "RMSE"; "MAE"; "RAW"] →
  assoc_lookup error_type (error_dict e n) = Spec.statistic error_type e.
Proof.
  intros -> Hn Het. rewrite !elem_of_cons, elem_of_nil in Het.
  destruct Het as [->|[->|[->|[->|[]]]]].
  - change (Some (np_mean (np_power_int e 2)) = Some (Spec.MSE e)).
    by rewrite np_mean_squares.
  - change (Some (float_pow (np_mean (np_power_int e 2)) (1 / 2))
            = Some (Spec.RMSE e)).
    rewrite np_mean_squares, float_pow_half by (by apply MSE_nonneg). done.
  - reflexivity.
  - reflexivity.
Qed.

Lemma insight_value_statistic group group_var error_type dt e :
  frame_wf (gframe group) →
  assoc_lookup "errors" (columns (gframe group)) = Some (Numeric dt e) →
  0 < length e →
  error_type ∈ ["MSE"; "RMSE"; "MAE"; "RAW"] →
  insight_value group group_var error_type = Spec.statistic error_type e.
Proof.
  intros Hwf Herr Hn Het.
  pose proof (frame_wf_column_length _ _ _ Hwf Herr) as Hlen. simpl in Hlen.
  destruct (create_insights_numeric group group_var error_type dt e Herr Het)
    as (stat & Hstat & Hout).
  rewrite error_dict_statistic in Hstat by done.
  unfold insight_value. rewrite Hout, Hstat. simpl.
  rewrite !elem_of_cons, elem_of_nil in Het.
  by destruct Het as [->|[->|[->|[->|[]]]]].
Qed.














Lemma sum_opp e : Spec.sum (map Ropp e) = (- Spec.sum e)%R.
Proof. induction e as [|x e IH]; simpl; [lra|]. rewrite IH. lra. Qed.

Lemma statistic_opp e :
  Spec.MSE (map Ropp e) = Spec.MSE e ∧
  Spec.RMSE (map Ropp e) = Spec.RMSE e ∧
  Spec.MAE (map Ropp e) = Spec.MAE e ∧
  Spec.RAW (map Ropp e) = (- Spec.RAW e)%R.
Proof.
  assert (Spec.MSE (map Ropp e) = Spec.MSE e) as Hmse.
  { unfold Spec.MSE, Spec.mean. rewrite !length_map, map_map. do 2 f_equal.
    apply map_ext. intros x. lra. }
  split; [exact Hmse|]. split; [unfold Spec.RMSE; by rewrite Hmse|]. split.
  - unfold Spec.MAE. rewrite length_map, map_map. do 2 f_equal.
    apply map_ext. intros x. apply Rabs_Ropp.
  - unfold Spec.RAW, Spec.mean. rewrite length_map, sum_opp. lra.
Qed.

(** X3. Changing the sign of every residual of a group leaves the reported
    MSE, RMSE and MAE as they are and changes the sign of RAW. *)
Theorem create_insights_sign_flip group group' group_var dt e :
  frame_wf (gframe group) →
  frame_wf (gframe group') →
  assoc_lookup "errors" (columns (gframe group)) = Some (Numeric dt e) →
  assoc_lookup "errors" (columns (gframe group')) = Some (Numeric dt (map Ropp e)) →
  0 < length e →
  insight_value group' group_var "MSE" = insight_value group group_var "MSE" ∧
  insight_value group' group_var "RMSE" = insight_value group group_var "RMSE" ∧
  insight_value group' group_var "MAE" = insight_value group group_var "MAE" ∧
  insight_value group' group_var "RAW"
    = Ropp <$> insight_value group group_var "RAW".
Proof.
  intros Hwf Hwf' Herr Herr' Hn.
  assert (0 < length (map Ropp e)) as Hn' by (by rewrite length_map).
  destruct (statistic_opp e) as (Hmse & Hrmse & Hmae & Hraw).
  repeat split.
  - rewrite (insight_value_statistic group' _ _ dt (map Ropp e)),
      (insight_value_statistic group _ _ dt e); try done;
      try (rewrite !elem_of_cons; tauto).
    change (Some (Spec.MSE (map Ropp e)) = Some (Spec.MSE e)). by rewrite Hmse.
  - rewrite (insight_value_statistic group' _ _ dt (map Ropp e)),
      (insight_value_statistic group _ _ dt e); try done;
      try (rewrite !elem_of_cons; tauto).
    change (Some (Spec.RMSE (map Ropp e)) = Some (Spec.RMSE e)). by rewrite Hrmse.
  - rewrite (insight_value_statistic group' _ _ dt (map Ropp e)),
      (insight_value_statistic group _ _ dt e); try done;
      try (rewrite !elem_of_cons; tauto).
    change (Some (Spec.MAE (map Ropp e)) = Some (Spec.MAE e)). by rewrite Hmae.
  - rewrite (insight_value_statistic group' _ _ dt (map Ropp e)),
      (insight_value_statistic group _ _ dt e); try done;
      try (rewrite !elem_of_cons; tauto).
    change (Some (Spec.RAW (map Ropp e)) = Some (- Spec.RAW e)%R). by rewrite Hraw.
Qed.

Lemma create_insights_sign_flip_witness :
  insight_value test_group_negated None "MSE" = insight_value test_group None "MSE" ∧
  insight_value test_group_negated None "RMSE" = insight_value test_group None "RMSE" ∧
  insight_value test_group_negated None "MAE" = insight_value test_group None "MAE" ∧
  insight_value test_group_negated None "RAW"
    = Ropp <$> insight_value test_group None "RAW".
Proof.
  apply (create_insights_sign_flip test_group test_group_negated None int64
           [0; 1; 2; 3]%R).
  - repeat constructor.
  - repeat constructor.
  - reflexivity.
  - reflexivity.
  - simpl. lia.
Defined.

(** X4. The error types that pass the assertion of [create_insights] are
    exactly those listed in [Settings.supported_agg_errors]. *)
Theorem create_insights_assert_matches_settings group group_var error_type :
  create_insights group group_var error_type
    = Raise (AssertionError create_insights_assert_msg)
  ↔ error_type ∉ Settings.supported_agg_errors.
Proof.
  unfold create_insights, Settings.supported_agg_errors. split.
  - intros Hr Hin.
    rewrite bool_decide_eq_true_2 in Hr.
    + unfold getitem in Hr.
      destruct (assoc_lookup "errors" _) as [c|]; [|discriminate].
      destruct c; simpl in Hr; try discriminate.
      repeat case_decide; discriminate.
    + rewrite !elem_of_cons, elem_of_nil in Hin |- *. tauto.
  - intros Hnot. rewrite bool_decide_eq_false_2; [done|].
    intros Hin. apply Hnot.
    rewrite !elem_of_cons, elem_of_nil in Hin |- *. tauto.
Qed.

(** X5. Every statistic is computed whichever is asked for, starting with
    [errors ** 2]: on a non-empty [errors] column of text or of categorical
    type the call fails with [TypeError] for every supported error type. *)
Theorem create_insights_non_numeric_errors group group_var error_type c :
  assoc_lookup "errors" (columns (gframe group)) = Some c →
  kind_of c ≠ KNumber →
  0 < column_length c →
  error_type ∈ ["MSE"; "RMSE"; "MAE"; "RAW"] →
  ∃ msg, create_insights group group_var error_type = Raise (TypeError msg).
Proof.
  intros Herr Hkind _ Het. unfold create_insights, getitem.
  rewrite bool_decide_eq_true_2, Herr by done. simpl.
  destruct c; [done| |]; by eexists.
Qed.

Lemma create_insights_non_numeric_errors_witness :
  ∃ msg, create_insights test_group_text None "RAW" = Raise (TypeError msg).
Proof.
  apply (create_insights_non_numeric_errors test_group_text None "RAW"
           (Object [Some "low"; Some "high"])).
  - reflexivity.
  - discriminate.
  - simpl. lia.
  - rewrite !elem_of_cons. tauto.
Defined.

(** ** The probability accuracy *)

(** X6. For a class label 0 or 1 and a predicted probability between 0 and
    1, [prob_acc] is the distance between the two: the probability for label
    0, one minus it for label 1. It lies between 0 and 1, and the values for
    the two labels add up to 1. *)
Theorem prob_acc_binary true_class pred_prob :
  true_class = 0%R ∨ true_class = 1%R →
  (0 <= pred_prob <= 1)%R →
  prob_acc true_class pred_prob = Rabs (true_class - pred_prob) ∧
  (0 <= prob_acc true_class pred_prob <= 1)%R ∧
  (prob_acc true_class pred_prob + prob_acc (1 - true_class) pred_prob = 1)%R.
Proof.
  intros [-> | ->] [Hp0 Hp1]; unfold prob_acc.
  - rewrite Rminus_0_l, Rabs_Ropp, Rabs_right by lra. lra.
  - rewrite Rabs_right by lra. lra.
Qed.

Lemma prob_acc_binary_witness :
  prob_acc 1 (8 / 10) = Rabs (1 - 8 / 10) ∧
  (0 <= prob_acc 1 (8 / 10) <= 1)%R ∧
  (prob_acc 1 (8 / 10) + prob_acc (1 - 1) (8 / 10) = 1)%R.
Proof.
  apply (prob_acc_binary 1 (8 / 10)).
  - right. reflexivity.
  - lra.
Defined.

Example prob_acc_outputs : prob_acc 1 (8 / 10) = (2 / 10)%R.
Proof. unfold prob_acc. lra. Qed.

(** ** The HTML template *)

Lemma replace_from_absent old new s :
  str_contains old s = false → replace_from old new 0 s = s.
Proof.
  induction s as [|c s IH]; [done|].
  intros Hs. change (str_contains old (String c s))
    with (String.prefix old (String c s) || str_contains old s) in Hs.
  apply orb_false_elim in Hs as [Hpre Hrest].
  change (replace_from old new 0 (String c s))
    with (if String.prefix old (String c s)
          then new +:+ replace_from old new (String.length old - 1) s
          else String c (replace_from old new 0 s)).
  rewrite Hpre, IH by done. done.
Qed.

Lemma str_replace_absent old new s :
  str_contains old s = false → str_replace old new s = s.
Proof.
  destruct old as [|a old]; [by destruct s|].
  apply replace_from_absent.
Qed.

(** X7. With a template kind other than html_error and html_sensitivity,
    [createmlerror_html] and [get_html] fail with their own assertion
    errors, whatever files exist and whatever the data. *)
Theorem html_invalid_htmltype resource_filename fs datastring dependentvar htmltype :
  htmltype ∉ ["html_error"; "html_sensitivity"] →
  createmlerror_html resource_filename fs datastring dependentvar htmltype
    = inl (Exn (AssertionError createmlerror_html_assert_msg)) ∧
  get_html resource_filename fs htmltype
    = inl (Exn (AssertionError "htmltype must be html_error or html_sensitivity")).
Proof.
  intros Hht. unfold createmlerror_html, get_html.
  by rewrite bool_decide_eq_false_2.
Qed.

Lemma html_invalid_htmltype_witness :
  createmlerror_html (λ _ name, "/pkg/" +:+ name) ∅ "[]" "quality" "html"
    = inl (Exn (AssertionError createmlerror_html_assert_msg)) ∧
  get_html (λ _ name, "/pkg/" +:+ name) ∅ "html"
    = inl (Exn (AssertionError "htmltype must be html_error or html_sensitivity")).
Proof.
  apply (html_invalid_htmltype (λ _ name, "/pkg/" +:+ name) ∅ "[]" "quality" "html").
  rewrite !elem_of_cons, elem_of_nil. intros [H|[H|[]]]; discriminate H.
Defined.

(** X8. For a valid template kind, [get_html] returns the file
    [<htmltype>.txt] of the working directory when it can be read, whatever
    the package holds; otherwise the packaged resource; and when neither can
    be read it fails with the [IOError] of the packaged path. *)
Theorem get_html_lookup_order resource_filename fs htmltype :
  htmltype ∈ ["html_error"; "html_sensitivity"] →
  get_html resource_filename fs htmltype =
    match fs !! (htmltype +:+ ".txt") with
    | Some local => inr local
    | None =>
        match fs !! resource_filename "whitebox" (htmltype +:+ ".txt") with
        | Some packaged => inr packaged
        | None => inl (IOError (resource_filename "whitebox" (htmltype +:+ ".txt")))
        end
    end.
Proof.
  intros Hht. unfold get_html, open_read.
  rewrite bool_decide_eq_true_2 by done.
  by destruct (fs !! (htmltype +:+ ".txt")).
Qed.

Lemma get_html_lookup_order_witness :
  get_html (λ _ name, "/pkg/" +:+ name)
    {[ "/pkg/html_error.txt" := "packaged <***>" ]} "html_error" =
    match ({[ "/pkg/html_error.txt" := "packaged <***>" ]} : gmap string string)
            !! ("html_error" +:+ ".txt") with
    | Some local => inr local
    | None =>
        match ({[ "/pkg/html_error.txt" := "packaged <***>" ]} : gmap string string)
                !! ("/pkg/" +:+ ("html_error" +:+ ".txt")) with
        | Some packaged => inr packaged
        | None => inl (IOError ("/pkg/" +:+ ("html_error" +:+ ".txt")))
        end
    end.
Proof.
  apply (get_html_lookup_order (λ _ name, "/pkg/" +:+ name)
           {[ "/pkg/html_error.txt" := "packaged <***>" ]} "html_error").
  rewrite !elem_of_cons. tauto.
Defined.

(** X9. When the template that is read contains neither the placeholder
    [<***>] nor the label [Quality], [createmlerror_html] returns it as it
    is: the data and the name of the dependent variable are left out without
    any error. *)
Theorem createmlerror_html_no_tokens
    resource_filename fs datastring dependentvar htmltype template :
  htmltype ∈ ["html_error"; "html_sensitivity"] →
  get_html resource_filename fs htmltype = inr template →
  str_contains "<***>" template = false →
  str_contains "Quality" template = false →
  createmlerror_html resource_filename fs datastring dependentvar htmltype
    = inr template.
Proof.
  intros Hht Hget Hdata Hlabel. unfold createmlerror_html.
  rewrite bool_decide_eq_true_2, Hget by done.
  by rewrite (str_replace_absent "<***>"), (str_replace_absent "Quality").
Qed.

Lemma createmlerror_html_no_tokens_witness :
  createmlerror_html (λ _ name, "/pkg/" +:+ name)
    {[ "html_error.txt" := "<html></html>" ]} "[1, 2]" "quality" "html_error"
    = inr "<html></html>".
Proof.
  apply (createmlerror_html_no_tokens (λ _ name, "/pkg/" +:+ name)
           {[ "html_error.txt" := "<html></html>" ]} "[1, 2]" "quality"
           "html_error" "<html></html>").
  - rewrite !elem_of_cons. tauto.
  - reflexivity.
  - reflexivity.
  - reflexivity.
Defined.

Lemma prefix_append old rest : String.prefix old (old +:+ rest) = true.
Proof.
  induction old as [|a old IH]; simpl; [by destruct rest|].
  by destruct (Ascii.ascii_dec a a).
Qed.

Lemma replace_from_skip old new m rest :
  replace_from old new (String.length m) (m +:+ rest) = replace_from old new 0 rest.
Proof. induction m as [|a m IH]; [done|]. simpl. exact IH. Qed.

(** At a match the replacement is written and the scan goes on after it. *)
Lemma replace_from_match a old new rest :
  replace_from (String a old) new 0 (String a old +:+ rest)
    = new +:+ replace_from (String a old) new 0 rest.
Proof.
  change (String a old +:+ rest) with (String a (old +:+ rest)).
  change (replace_from (String a old) new 0 (String a (old +:+ rest)))
    with (if String.prefix (String a old) (String a (old +:+ rest))
          then new +:+ replace_from (String a old) new
                         (String.length (String a old) - 1) (old +:+ rest)
          else String a (replace_from (String a old) new 0 (old +:+ rest))).
  assert (String.prefix (String a old) (String a (old +:+ rest)) = true) as ->
    by apply (prefix_append (String a old) rest).
  replace (String.length (String a old) - 1) with (String.length old)
    by (simpl; lia).
  by rewrite replace_from_skip.
Qed.

(** Text without the first character of [old] is copied as it is. *)
Lemma replace_from_pass a old new pre rest :
  str_contains (String a EmptyString) pre = false →
  replace_from (String a old) new 0 (pre +:+ rest)
    = pre +:+ replace_from (String a old) new 0 rest.
Proof.
  induction pre as [|c pre IH]; [done|]. intros Hpre.
  change (str_contains (String a EmptyString) (String c pre))
    with (String.prefix (String a EmptyString) (String c pre)
          || str_contains (String a EmptyString) pre) in Hpre.
  apply orb_false_elim in Hpre as [Hc Hrest].
  change ((String c pre) +:+ rest) with (String c (pre +:+ rest)).
  change (replace_from (String a old) new 0 (String c (pre +:+ rest)))
    with (if String.prefix (String a old) (String c (pre +:+ rest))
          then new +:+ replace_from (String a old) new
                         (String.length (String a old) - 1) (pre +:+ rest)
          else String c (replace_from (String a old) new 0 (pre +:+ rest))).
  assert (String.prefix (String a old) (String c (pre +:+ rest)) = false) as ->.
  { simpl in Hc |- *. destruct (Ascii.ascii_dec a c); [|done]. by destruct pre. }
  by rewrite IH.
Qed.

(** X10. When the template read is [pre<***>post], with no [<] in [pre] and
    no further placeholder in [post], and [Quality] occurs nowhere once the
    data are in, [createmlerror_html] returns [pre], the data, [post]. *)
Theorem createmlerror_html_substitutes
    resource_filename fs datastring dependentvar htmltype pre post :
  htmltype ∈ ["html_error"; "html_sensitivity"] →
  get_html resource_filename fs htmltype = inr (pre +:+ "<***>" +:+ post) →
  str_contains "<" pre = false →
  str_contains "<***>" post = false →
  str_contains "Quality" (pre +:+ datastring +:+ post) = false →
  createmlerror_html resource_filename fs datastring dependentvar htmltype
    = inr (pre +:+ datastring +:+ post).
Proof.
  intros Hht Hget Hpre Hpost Hlabel. unfold createmlerror_html.
  rewrite bool_decide_eq_true_2, Hget by done. f_equal.
  assert (str_replace "<***>" datastring (pre +:+ "<***>" +:+ post)
          = pre +:+ datastring +:+ post) as ->.
  { unfold str_replace.
    rewrite (replace_from_pass _ _ _ pre) by exact Hpre.
    rewrite (replace_from_match _ _ _ post).
    by rewrite (replace_from_absent "<***>" datastring post). }
  by apply str_replace_absent.
Qed.

Lemma createmlerror_html_substitutes_witness :
  createmlerror_html (λ _ name, "/pkg/" +:+ name)
    {[ "html_error.txt" := "var data = <***>;" ]} "[1, 2]" "quality" "html_error"
    = inr ("var data = " +:+ "[1, 2]" +:+ ";").
Proof.
  apply (createmlerror_html_substitutes (λ _ name, "/pkg/" +:+ name)
           {[ "html_error.txt" := "var data = <***>;" ]} "[1, 2]" "quality"
           "html_error" "var data = " ";").
  - rewrite !elem_of_cons. tauto.
  - reflexivity.
  - reflexivity.
  - reflexivity.
  - reflexivity.
Defined.

(** ** Sorted distinct strings *)

Lemma ascii_compare_refl a : Ascii.compare a a = Eq.
Proof. apply N.compare_refl. Qed.

Lemma string_compare_refl s : String.compare s s = Eq.
Proof. induction s as [|a s IH]; simpl; [done|]. by rewrite ascii_compare_refl. Qed.

Lemma string_compare_lt_trans s1 : ∀ s2 s3,
  String.compare s1 s2 = Lt → String.compare s2 s3 = Lt → String.compare s1 s3 = Lt.
Proof.
  induction s1 as [|a s1 IH]; intros [|b s2] [|c s3]; simpl; try done.
  unfold Ascii.compare.
  destruct (N.compare_spec (Ascii.N_of_ascii a) (Ascii.N_of_ascii b)) as [Hab|Hab|Hab];
    destruct (N.compare_spec (Ascii.N_of_ascii b) (Ascii.N_of_ascii c)) as [Hbc|Hbc|Hbc];
    try done; intros H12 H23.
  - rewrite Hab, Hbc, N.compare_refl. by eapply IH.
  - rewrite Hab. by apply N.compare_lt_iff in Hbc as ->.
  - rewrite <- Hbc. by apply N.compare_lt_iff in Hab as ->.
  - assert (Ascii.N_of_ascii a < Ascii.N_of_ascii c)%N as Hac by lia.
    by apply N.compare_lt_iff in Hac as ->.
Qed.

Lemma insert_uniq_elem_of (x y : string) l :
  y ∈ insert_uniq String.compare x l ↔ y = x ∨ y ∈ l.
Proof.
  induction l as [|z l IH]; simpl.
  - rewrite elem_of_cons, elem_of_nil. tauto.
  - destruct (String.compare x z) eqn:Hc.
    + apply String.compare_eq_iff in Hc as ->. rewrite elem_of_cons. tauto.
    + rewrite !elem_of_cons. tauto.
    + rewrite !elem_of_cons, IH. tauto.
Qed.

Lemma sorted_uniq_elem_of (y : string) xs :
  y ∈ sorted_uniq String.compare xs ↔ y ∈ xs.
Proof.
  unfold sorted_uniq. induction xs as [|x xs IH]; simpl; [done|].
  rewrite insert_uniq_elem_of, IH, elem_of_cons. tauto.
Qed.

Lemma insert_uniq_sorted x l :
  StronglySorted (λ a b, String.compare a b = Lt) l →
  StronglySorted (λ a b, String.compare a b = Lt) (insert_uniq String.compare x l).
Proof.
  induction 1 as [|z l Hl IH Hz]; simpl; [repeat constructor|].
  destruct (String.compare x z) eqn:Hc.
  - by constructor.
  - constructor; [by constructor|]. constructor; [done|].
    eapply Forall_impl; [exact Hz|]. intros w Hw. simpl in Hw.
    by eapply string_compare_lt_trans.
  - constructor; [exact IH|].
    apply Forall_forall. intros w Hw. apply insert_uniq_elem_of in Hw as [->|Hw].
    + rewrite String.compare_antisym, Hc. done.
    + rewrite Forall_forall in Hz. by apply Hz.
Qed.

Lemma sorted_uniq_sorted xs :
  StronglySorted (λ a b, String.compare a b = Lt) (sorted_uniq String.compare xs).
Proof.
  unfold sorted_uniq. induction xs as [|x xs IH]; simpl; [constructor|].
  by apply insert_uniq_sorted.
Qed.

Lemma sorted_uniq_NoDup xs : NoDup (sorted_uniq String.compare xs).
Proof.
  pose proof (sorted_uniq_sorted xs) as Hs.
  induction Hs as [|z l Hl IH Hz]; [constructor|].
  constructor; [|exact IH].
  intros Hin. rewrite Forall_forall in Hz. specialize (Hz _ Hin).
  rewrite string_compare_refl in Hz. discriminate.
Qed.

(** ** The encoder, column by column *)

Lemma index_of_lower s l : (-1 ≤ index_of s l)%Z.
Proof.
  induction l as [|x l IH]; simpl; [lia|].
  destruct (decide (s = x)); [lia|]. destruct (decide (index_of s l = -1)%Z); lia.
Qed.

Lemma index_of_lookup s l :
  (0 ≤ index_of s l)%Z → l !! Z.to_nat (index_of s l) = Some s.
Proof.
  induction l as [|x l IH]; simpl; [lia|].
  destruct (decide (s = x)) as [->|Hne]; [done|].
  destruct (decide (index_of s l = -1)%Z) as [Heq|Hneq]; [lia|].
  intros _. pose proof (index_of_lower s l).
  replace (Z.to_nat (1 + index_of s l)) with (S (Z.to_nat (index_of s l))) by lia.
  simpl. apply IH. lia.
Qed.

Lemma index_of_elem_of s l : s ∈ l → (0 ≤ index_of s l)%Z.
Proof.
  induction l as [|x l IH]; simpl; [by intros ?%elem_of_nil|].
  intros Hin. destruct (decide (s = x)) as [->|Hne]; [lia|].
  apply elem_of_cons in Hin as [?|Hin]; [done|].
  specialize (IH Hin). destruct (decide (index_of s l = -1)%Z); lia.
Qed.

(** Every column leaves the encoder as the codes of its categorical form;
    for a numeric column that is the column itself. *)
Lemma encoder_columns dataframe :
  columns (convert_categorical_independent dataframe).1
    = (λ nc, (nc.1, cat_codes (pd_Categorical nc.2))) <$> columns dataframe.
Proof.
  destruct dataframe as [cols n].
  unfold convert_categorical_independent, copy_deep. simpl.
  rewrite !loc_update_foldl by auto using pd_Categorical_idemp, cat_codes_idemp.
  simpl.
  set (names := column_names (select_dtypes [KObject; KCategory] _)).
  set (g1 := λ nc : string * column,
               if decide (nc.1 ∈ names) then (nc.1, pd_Categorical nc.2) else nc).
  rewrite <- list_fmap_compose. apply list_fmap_ext. intros i [k c] Hi. simpl.
  assert ((k, c) ∈ cols) as Hin by (by eapply list_elem_of_lookup_2).
  assert (kind_of c ≠ KNumber → k ∈ names) as Hnames.
  { intros Hk. unfold names, column_names, select_dtypes. simpl.
    apply list_elem_of_fmap. exists (k, c). split; [done|].
    apply list_elem_of_filter. split; [|done]. simpl.
    destruct c; [exfalso; by apply Hk|constructor|constructor; constructor]. }
  assert (kind_of c ≠ KNumber →
          k ∈ column_names (select_dtypes [KCategory]
                 {| columns := g1 <$> cols; nrows := n |})) as Hnames2.
  { intros Hk. unfold column_names, select_dtypes. simpl.
    apply list_elem_of_fmap. exists (k, pd_Categorical c). split; [done|].
    apply list_elem_of_filter. split; [destruct c; [exfalso; by apply Hk|simpl; constructor..]|].
    apply list_elem_of_fmap. exists (k, c). split; [|done].
    unfold g1. simpl. by rewrite decide_True by auto. }
  destruct c as [dt xs|xs|cats codes].
  - assert (g1 (k, Numeric dt xs) = (k, Numeric dt xs)) as ->
      by (unfold g1; simpl; by destruct (decide _)).
    simpl. by destruct (decide _).
  - assert (g1 (k, Object xs) = (k, pd_Categorical (Object xs))) as ->
      by (unfold g1; simpl; by rewrite decide_True by (by apply Hnames)).
    cbn [fst snd]. by rewrite decide_True by (by apply Hnames2).
  - assert (g1 (k, Category cats codes) = (k, pd_Categorical (Category cats codes)))
      as -> by (unfold g1; simpl; by rewrite decide_True by (by apply Hnames)).
    cbn [fst snd]. by rewrite decide_True by (by apply Hnames2).
Qed.

Lemma encoder_nrows dataframe :
  nrows (convert_categorical_independent dataframe).1 = nrows dataframe.
Proof.
  destruct dataframe as [cols n].
  unfold convert_categorical_independent, copy_deep. simpl.
  by rewrite !loc_update_foldl by auto using pd_Categorical_idemp, cat_codes_idemp.
Qed.

(** The warnings are sent when, and only when, every column is numeric. *)
Lemma encoder_signals dataframe :
  (convert_categorical_independent dataframe).2
    = if decide (Forall (λ nc, kind_of nc.2 = KNumber) (columns dataframe))
      then [LoggingWarn no_categorical_msg; UserWarning no_categorical_msg]
      else [].
Proof.
  destruct dataframe as [cols n].
  unfold convert_categorical_independent, copy_deep. simpl.
  rewrite !loc_update_foldl by auto using pd_Categorical_idemp, cat_codes_idemp.
  simpl.
  set (names := column_names (select_dtypes [KObject; KCategory] _)).
  set (g1 := λ nc : string * column,
               if decide (nc.1 ∈ names) then (nc.1, pd_Categorical nc.2) else nc).
  destruct (decide (Forall _ cols)) as [Hall|Hnot].
  - rewrite decide_True; [done|].
    rewrite (filter_kind_none [KCategory]); [done|].
    apply Forall_fmap, Forall_forall. intros [k c] Hin.
    rewrite Forall_forall in Hall. specialize (Hall _ Hin). simpl in Hall.
    unfold g1. simpl. destruct c; try done.
    rewrite elem_of_cons, elem_of_nil.
    destruct (decide (k ∈ names)); simpl; by intros [|[]].
  - apply not_Forall_Exists in Hnot; [|apply _].
    apply Exists_exists in Hnot as ([k c] & Hin & Hkind). simpl in Hkind.
    rewrite decide_False; [done|].
    assert ((k, pd_Categorical c) ∈
              filter (λ nc : string * column, kind_of nc.2 ∈ [KCategory]) (g1 <$> cols))
      as Hmem.
    { apply list_elem_of_filter. split; [destruct c; [exfalso; by apply Hkind|simpl; constructor..]|].
      apply list_elem_of_fmap. exists (k, c). split; [|done].
      unfold g1. simpl. rewrite decide_True; [done|].
      unfold names, column_names, select_dtypes. simpl.
      apply list_elem_of_fmap. exists (k, c). split; [done|].
      apply list_elem_of_filter. split; [|done]. simpl.
      destruct c; [exfalso; by apply Hkind|constructor|constructor; constructor]. }
    destruct (filter _ (g1 <$> cols)); [by apply elem_of_nil in Hmem|done].
Qed.

Lemma encoded_column_numeric c : kind_of (cat_codes (pd_Categorical c)) = KNumber.
Proof. by destruct c. Qed.

Lemma encoded_column_length c :
  column_length (cat_codes (pd_Categorical c)) = column_length c.
Proof. destruct c; simpl; by rewrite ?length_fmap. Qed.

Lemma encoded_numeric_column c :
  kind_of c = KNumber → cat_codes (pd_Categorical c) = c.
Proof. by destruct c. Qed.

(** On an all-numeric table the encoder returns the table and the warnings. *)
Lemma encoder_numeric_fixpoint dataframe :
  Forall (λ nc, kind_of nc.2 = KNumber) (columns dataframe) →
  convert_categorical_independent dataframe
    = (dataframe, [LoggingWarn no_categorical_msg; UserWarning no_categorical_msg]).
Proof.
  intros Hall.
  pose proof (encoder_columns dataframe) as Hc.
  pose proof (encoder_nrows dataframe) as Hn.
  pose proof (encoder_signals dataframe) as Hs.
  rewrite decide_True in Hs by done.
  destruct (convert_categorical_independent dataframe) as [[cols' n'] sig].
  destruct dataframe as [cols n]. simpl in *. subst. f_equal. f_equal.
  etrans; [|apply list_fmap_id]. apply list_fmap_ext. intros i [k c] Hi. simpl.
  rewrite Forall_forall in Hall.
  rewrite encoded_numeric_column; [done|].
  apply (Hall (k, c)). by eapply list_elem_of_lookup_2.
Qed.

(** X11. The encoder leaves no text or categorical column: every column of
    the result is numeric, under the same name and in the same position, the
    number of rows is kept, and a well-formed table stays well-formed.
    (Column names are taken to be distinct, as the column-wise assignment of
    the code needs.) *)
Theorem encoder_output_numeric dataframe :
  NoDup (column_names dataframe) →
  let out := (convert_categorical_independent dataframe).1 in
  Forall (λ nc, kind_of nc.2 = KNumber) (columns out) ∧
  column_names out = column_names dataframe ∧
  nrows out = nrows dataframe ∧
  (frame_wf dataframe → frame_wf out).
Proof.
  intros _ out. unfold out, frame_wf, column_names.
  rewrite encoder_columns, encoder_nrows.
  split; [|split; [|split; [done|]]].
  - apply Forall_fmap, Forall_forall. intros [k c] _. apply encoded_column_numeric.
  - rewrite <- list_fmap_compose. by apply list_fmap_ext.
  - intros Hwf. apply Forall_fmap. eapply Forall_impl; [exact Hwf|].
    intros [k c] Hc. simpl in *. by rewrite encoded_column_length.
Qed.

Lemma encoder_output_numeric_witness :
  let out := (convert_categorical_independent mixed_frame).1 in
  Forall (λ nc, kind_of nc.2 = KNumber) (columns out) ∧
  column_names out = column_names mixed_frame ∧
  nrows out = nrows mixed_frame ∧
  (frame_wf mixed_frame → frame_wf out).
Proof.
  apply (encoder_output_numeric mixed_frame).
  apply (bool_decide_unpack _). reflexivity.
Defined.

(** X12. The encoder sends its warning, to the log and to the warnings
    channel, exactly when the table has no text or categorical column;
    otherwise it sends nothing. *)
Theorem encoder_warns_iff_numeric dataframe :
  NoDup (column_names dataframe) →
  ((convert_categorical_independent dataframe).2
     = [LoggingWarn no_categorical_msg; UserWarning no_categorical_msg]
   ↔ Forall (λ nc, kind_of nc.2 = KNumber) (columns dataframe)) ∧
  ((convert_categorical_independent dataframe).2 = []
   ↔ Exists (λ nc, kind_of nc.2 ≠ KNumber) (columns dataframe)).
Proof.
  intros _. rewrite encoder_signals.
  destruct (decide (Forall _ (columns dataframe))) as [Hall|Hnot].
  - split; [done|]. split; [done|].
    intros Hex. apply Exists_exists in Hex as (nc & Hin & Hk).
    rewrite Forall_forall in Hall. by specialize (Hall _ Hin).
  - split; [done|]. split; [|done].
    intros _. apply not_Forall_Exists in Hnot; [done|apply _].
Qed.

Lemma encoder_warns_iff_numeric_witness :
  ((convert_categorical_independent mixed_frame).2
     = [LoggingWarn no_categorical_msg; UserWarning no_categorical_msg]
   ↔ Forall (λ nc, kind_of nc.2 = KNumber) (columns mixed_frame)) ∧
  ((convert_categorical_independent mixed_frame).2 = []
   ↔ Exists (λ nc, kind_of nc.2 ≠ KNumber) (columns mixed_frame)).
Proof.
  apply (encoder_warns_iff_numeric mixed_frame).
  apply (bool_decide_unpack _). reflexivity.
Defined.

(** X13. Encoding is idempotent: encoding the result of the encoder gives
    that result again (with the warning, as it has no text column left). *)
Theorem encoder_idempotent dataframe :
  NoDup (column_names dataframe) →
  convert_categorical_independent (convert_categorical_independent dataframe).1
    = ((convert_categorical_independent dataframe).1,
       [LoggingWarn no_categorical_msg; UserWarning no_categorical_msg]).
Proof.
  intros _. apply encoder_numeric_fixpoint.
  rewrite encoder_columns.
  apply Forall_fmap, Forall_forall. intros [k c] _. apply encoded_column_numeric.
Qed.

Lemma encoder_idempotent_witness :
  convert_categorical_independent (convert_categorical_independent mixed_frame).1
    = ((convert_categorical_independent mixed_frame).1,
       [LoggingWarn no_categorical_msg; UserWarning no_categorical_msg]).
Proof.
  apply (encoder_idempotent mixed_frame).
  apply (bool_decide_unpack _). reflexivity.
Defined.

(** X14. A numeric column passes through the encoder unchanged, and a
    column that is already categorical is replaced by its codes. *)
Theorem encoder_numeric_and_categorical_columns dataframe i k :
  NoDup (column_names dataframe) →
  (∀ dt xs,
     columns dataframe !! i = Some (k, Numeric dt xs) →
     columns (convert_categorical_independent dataframe).1 !! i
       = Some (k, Numeric dt xs)) ∧
  (∀ cats codes,
     columns dataframe !! i = Some (k, Category cats codes) →
     ∃ dt, columns (convert_categorical_independent dataframe).1 !! i
             = Some (k, Numeric dt (IZR <$> codes))).
Proof.
  intros _. rewrite encoder_columns.
  split; intros ? ? Hi; [|exists int8]; by rewrite list_lookup_fmap, Hi.
Qed.

Lemma encoder_numeric_and_categorical_columns_witness :
  (∀ dt xs,
     columns mixed_frame !! 1 = Some ("x", Numeric dt xs) →
     columns (convert_categorical_independent mixed_frame).1 !! 1
       = Some ("x", Numeric dt xs)) ∧
  (∀ cats codes,
     columns mixed_frame !! 1 = Some ("x", Category cats codes) →
     ∃ dt, columns (convert_categorical_independent mixed_frame).1 !! 1
             = Some ("x", Numeric dt (IZR <$> codes))).
Proof.
  apply (encoder_numeric_and_categorical_columns mixed_frame 1 "x").
  apply (bool_decide_unpack _). reflexivity.
Defined.

Lemma label_code_spec (xs : list (option string)) (o : option string) :
  o ∈ xs →
  let cats := sorted_uniq String.compare (omap (λ o : option string, o) xs) in
  let code := match o with Some s => index_of s cats | None => (-1)%Z end in
  match o with
  | Some s => (0 ≤ code)%Z ∧ cats !! Z.to_nat code = Some s
  | None => code = (-1)%Z
  end.
Proof.
  intros Hin cats code. destruct o as [s|]; [|done].
  assert (s ∈ cats) as Hs.
  { apply sorted_uniq_elem_of, list_elem_of_omap. by exists (Some s). }
  split; [by apply index_of_elem_of|].
  apply index_of_lookup. by apply index_of_elem_of.
Qed.

(** X15. A text column leaves the encoder as a column of integer codes, one
    per row: a missing value, and only a missing value, has code -1, and two
    rows have the same code exactly when they hold the same label. *)
Theorem encoder_text_codes dataframe i k xs :
  NoDup (column_names dataframe) →
  columns dataframe !! i = Some (k, Object xs) →
  ∃ dt codes,
    columns (convert_categorical_independent dataframe).1 !! i
      = Some (k, Numeric dt (IZR <$> codes)) ∧
    length codes = length xs ∧
    (∀ j, xs !! j = Some None ↔ codes !! j = Some (-1)%Z) ∧
    (∀ j j' v v' c c',
       xs !! j = Some v → xs !! j' = Some v' →
       codes !! j = Some c → codes !! j' = Some c' →
       (c = c' ↔ v = v')).
Proof.
  intros _ Hi. rewrite encoder_columns, list_lookup_fmap, Hi. simpl.
  set (cats := sorted_uniq String.compare (omap (λ o : option string, o) xs)).
  set (code := λ o : option string,
         match o with Some s => index_of s cats | None => (-1)%Z end).
  exists int8, (code <$> xs). split; [done|]. split; [by rewrite length_fmap|].
  assert (∀ j v, xs !! j = Some v →
            match v with
            | Some s => (0 ≤ code v)%Z ∧ cats !! Z.to_nat (code v) = Some s
            | None => code v = (-1)%Z
            end) as Hcode.
  { intros j v Hj. apply (label_code_spec xs v). by eapply list_elem_of_lookup_2. }
  split.
  - intros j. rewrite list_lookup_fmap. split.
    + by intros ->.
    + destruct (xs !! j) as [v|] eqn:Hj; [|done]. simpl. intros [= Hc].
      specialize (Hcode j v Hj). destruct v as [s|]; [|done]. lia.
  - intros j j' v v' c c' Hj Hj' Hc Hc'.
    rewrite list_lookup_fmap, Hj in Hc. rewrite list_lookup_fmap, Hj' in Hc'.
    simpl in Hc, Hc'. injection Hc as <-. injection Hc' as <-.
    split; [|by intros ->].
    pose proof (Hcode j v Hj) as Hv. pose proof (Hcode j' v' Hj') as Hv'.
    intros Heq. destruct v as [s|], v' as [s'|]; try done; try lia.
    destruct Hv as [_ Hv], Hv' as [_ Hv']. rewrite Heq in Hv. congruence.
Qed.

Lemma encoder_text_codes_witness :
  ∃ dt codes,
    columns (convert_categorical_independent mixed_frame).1 !! 0
      = Some ("kind", Numeric dt (IZR <$> codes)) ∧
    length codes = length [Some "red"; Some "white"; None; Some "red"] ∧
    (∀ j, [Some "red"; Some "white"; None; Some "red"] !! j = Some None
          ↔ codes !! j = Some (-1)%Z) ∧
    (∀ j j' v v' c c',
       [Some "red"; Some "white"; None; Some "red"] !! j = Some v →
       [Some "red"; Some "white"; None; Some "red"] !! j' = Some v' →
       codes !! j = Some c → codes !! j' = Some c' →
       (c = c' ↔ v = v')).
Proof.
  apply (encoder_text_codes mixed_frame 0 "kind"
           [Some "red"; Some "white"; None; Some "red"]).
  - apply (bool_decide_unpack _). reflexivity.
  - reflexivity.
Defined.

(** ** What [to_json] builds *)

Lemma mapM_alloc_spec {A} (f : A → heap_obj) (xs : list A) h :
  ∃ ls h',
    mapM (λ x, alloc (f x)) xs h = (Ok (VRef <$> ls), h') ∧
    h ⊆ h' ∧
    Forall2 (λ x l, h' !! l = Some (f x)) xs ls ∧
    Forall (λ l, h !! l = None) ls.
Proof.
  revert h. induction xs as [|x xs IH]; intros h; simpl.
  - by exists [], h.
  - destruct (alloc_fresh (f x) h) as (l & Hal & Hl).
    destruct (IH (<[l := f x]> h)) as (ls & h' & Hls & Hsub & Hrec & Hnew).
    assert (h ⊆ <[l := f x]> h) as Hsub0 by (by apply insert_subseteq).
    exists (l :: ls), h'. split; [|split; [|split]].
    + erewrite mbind_M_ok by exact Hal.
      erewrite mbind_M_ok by exact Hls. done.
    + by etrans.
    + constructor; [|done].
      eapply lookup_weaken; [|exact Hsub]. apply lookup_insert_eq.
    + constructor; [done|].
      eapply Forall_impl; [exact Hnew|]. intros l' Hl'. simpl in Hl'.
      destruct (h !! l') eqn:Hh; [|done].
      eapply lookup_weaken in Hh; [|exact Hsub0]. congruence.
Qed.

Lemma to_dict_records_spec df h :
  ∃ ldata ls h',
    to_dict_records df h = (Ok (VRef ldata), h') ∧
    h ⊆ h' ∧
    h !! ldata = None ∧
    h' !! ldata = Some (HList (VRef <$> ls)) ∧
    Forall2 (λ i l, h' !! l = Some (HDict (row_record df i))) (seq 0 (nrows df)) ls ∧
    Forall (λ l, h !! l = None) ls.
Proof.
  unfold to_dict_records.
  destruct (mapM_alloc_spec (λ i, HDict (row_record df i)) (seq 0 (nrows df)) h)
    as (ls & h1 & Hls & Hsub1 & Hrec & Hnew).
  destruct (alloc_fresh (HList (VRef <$> ls)) h1) as (ldata & Hal & Hl).
  assert (h1 ⊆ <[ldata := HList (VRef <$> ls)]> h1) as Hsub2
    by (by apply insert_subseteq).
  exists ldata, ls, (<[ldata := HList (VRef <$> ls)]> h1).
  split; [|split; [|split; [|split; [|split]]]].
  - unfold row_record in Hls. erewrite mbind_M_ok by exact Hls. exact Hal.
  - by etrans.
  - destruct (h !! ldata) eqn:Hh; [|done].
    eapply lookup_weaken in Hh; [|exact Hsub1]. congruence.
  - apply lookup_insert_eq.
  - eapply Forall2_impl; [exact Hrec|]. intros i l Hil. simpl in *.
    by eapply lookup_weaken.
  - done.
Qed.

(** The last steps of [to_json], with what they put on the heap. *)
Lemma to_json_tail_spec dataframe l (d0 : gmap string pyval) h :
  h !! l = Some (HDict d0) →
  ∃ ldata ls h',
    (data ← to_dict_records dataframe;
     setitem_str (VRef l) "Data" data;;
     mret (VRef l)) h = (Ok (VRef l), h') ∧
    h' !! l = Some (HDict (<["Data" := VRef ldata]> d0)) ∧
    h' !! ldata = Some (HList (VRef <$> ls)) ∧
    Forall2 (λ i r, h' !! r = Some (HDict (row_record dataframe i)))
            (seq 0 (nrows dataframe)) ls ∧
    (∀ l' o, l' ≠ l → h !! l' = Some o → h' !! l' = Some o).
Proof.
  intros Hl.
  destruct (to_dict_records_spec dataframe h)
    as (ldata & ls & h1 & Hrec & Hsub & Hfresh & Hdata & Hrows & Hnew).
  assert (h1 !! l = Some (HDict d0)) as Hl1 by (by eapply lookup_weaken).
  exists ldata, ls, (<[l := HDict (<["Data" := VRef ldata]> d0)]> h1).
  split; [|split; [|split; [|split]]].
  - erewrite mbind_M_ok by exact Hrec.
    unfold mbind, M_bind, setitem_str. rewrite Hl1. done.
  - apply lookup_insert_eq.
  - rewrite lookup_insert_ne; [done|congruence].
  - clear Hdata Hrec.
    induction Hrows as [|i r idx rs Hir _ IH]; [constructor|].
    apply Forall_cons in Hnew as [Hr Hnew]. constructor; [|by apply IH].
    rewrite lookup_insert_ne; [done|]. intros <-. congruence.
  - intros l' o Hne Hl'. rewrite lookup_insert_ne by done.
    by eapply lookup_weaken.
Qed.


(** Every successful run of [to_json]: a new dict holding the fields set
    before [Data], and under [Data] a new list of new row records. *)
Lemma to_json_spec round2 float_str dataframe vartype html_type incremental_val h :
  vartype ∈ ["Continuous"; "Categorical"; "Accuracy"; "Percentile"] →
  html_type ∈ ["error"; "sensitivity"; "percentile"] →
  ∃ l ldata ls h',
    to_json round2 float_str dataframe vartype html_type incremental_val h
      = (Ok (VRef l), h') ∧
    h !! l = None ∧
    h ⊆ h' ∧
    h' !! l = Some (HDict (<["Data" := VRef ldata]>
      (if decide (html_type = "sensitivity")
       then <[ "Change" := VStr (py_str float_str
                 match incremental_val with
                 | IFloat x => IFloat (round2 x)
                 | v => v
                 end) ]> {[ "Type" := VStr vartype ]}
       else {[ "Type" := VStr vartype ]}))) ∧
    h' !! ldata = Some (HList (VRef <$> ls)) ∧
    Forall2 (λ i r, h' !! r = Some (HDict (row_record dataframe i)))
            (seq 0 (nrows dataframe)) ls.
Proof.
  intros Hvt Hht. unfold to_json.
  rewrite (bool_decide_eq_true_2 _ Hvt), (bool_decide_eq_true_2 _ Hht).
  simpl negb. cbv iota.
  assert (h !! fresh (dom h) = None) as Hfresh
    by apply not_elem_of_dom, is_fresh.
  assert (∀ d0 h',
            (∀ l' o, l' ≠ fresh (dom h) →
               <[fresh (dom h) := HDict d0]> h !! l' = Some o → h' !! l' = Some o) →
            h ⊆ h') as Hframe.
  { intros d0 h' Hfr. apply map_subseteq_spec. intros l' o Hl'.
    assert (l' ≠ fresh (dom h)) as Hne by congruence.
    apply Hfr; [done|]. by rewrite lookup_insert_ne. }
  rewrite !elem_of_cons, elem_of_nil in Hht.
  destruct Hht as [->|[->|[->|[]]]].
  - destruct (to_json_tail_spec dataframe (fresh (dom h)) {[ "Type" := VStr vartype ]}
                (<[fresh (dom h) := HDict {[ "Type" := VStr vartype ]}]> h)
                (lookup_insert_eq _ _ _)) as (ldata & ls & h' & Heq & Hl' & Hd & Hr & Hfr).
    exists (fresh (dom h)), ldata, ls, h'.
    split; [exact Heq|]. split; [exact Hfresh|]. split; [by eapply Hframe|].
    rewrite decide_False by discriminate. done.
  - set (iv := match incremental_val with IFloat x => IFloat (round2 x) | v => v end).
    destruct (to_json_tail_spec dataframe (fresh (dom h))
                (<[ "Change" := VStr (py_str float_str iv) ]> {[ "Type" := VStr vartype ]})
                (<[fresh (dom h) :=
                     HDict (<[ "Change" := VStr (py_str float_str iv) ]>
                              {[ "Type" := VStr vartype ]})]> h)
                (lookup_insert_eq _ _ _)) as (ldata & ls & h' & Heq & Hl' & Hd & Hr & Hfr).
    exists (fresh (dom h)), ldata, ls, h'.
    split; [exact Heq|]. split; [exact Hfresh|]. split; [by eapply Hframe|].
    rewrite decide_True by done. done.
  - destruct (to_json_tail_spec dataframe (fresh (dom h)) {[ "Type" := VStr vartype ]}
                (<[fresh (dom h) := HDict {[ "Type" := VStr vartype ]}]> h)
                (lookup_insert_eq _ _ _)) as (ldata & ls & h' & Heq & Hl' & Hd & Hr & Hfr).
    exists (fresh (dom h)), ldata, ls, h'.
    split; [exact Heq|]. split; [exact Hfresh|]. split; [by eapply Hframe|].
    rewrite decide_False by discriminate. done.
Qed.

(** X16. [to_json] checks [vartype] first and [html_type] second: a vartype
    outside its four values fails with the assertion on vartypes, and
    otherwise an html_type outside its three values fails with the assertion
    on html_type; in both cases nothing is allocated or changed. *)
Theorem to_json_rejects_invalid round2 float_str dataframe vartype html_type
    incremental_val h :
  (vartype ∉ ["Continuous"; "Categorical"; "Accuracy"; "Percentile"] →
   to_json round2 float_str dataframe vartype html_type incremental_val h
     = (Raise (AssertionError to_json_vartype_msg), h)) ∧
  (vartype ∈ ["Continuous"; "Categorical"; "Accuracy"; "Percentile"] →
   html_type ∉ ["error"; "sensitivity"; "percentile"] →
   to_json round2 float_str dataframe vartype html_type incremental_val h
     = (Raise (AssertionError "html_type must be error or sensitivity"), h)).
Proof.
  unfold to_json. split.
  - intros Hvt. by rewrite (bool_decide_eq_false_2 _ Hvt).
  - intros Hvt Hht.
    by rewrite (bool_decide_eq_true_2 _ Hvt), (bool_decide_eq_false_2 _ Hht).
Qed.

Lemma to_json_rejects_invalid_witness :
  to_json (λ x, x) (λ _, "0.1") payload_table "Ordinal" "html" INone ∅
    = (Raise (AssertionError to_json_vartype_msg), ∅) ∧
  to_json (λ x, x) (λ _, "0.1") payload_table "Accuracy" "html" INone ∅
    = (Raise (AssertionError "html_type must be error or sensitivity"), ∅).
Proof.
  split.
  - apply (proj1 (to_json_rejects_invalid (λ x, x) (λ _, "0.1") payload_table
                    "Ordinal" "html" INone ∅)).
    rewrite !elem_of_cons, elem_of_nil. intros [H|[H|[H|[H|[]]]]]; discriminate H.
  - apply (proj2 (to_json_rejects_invalid (λ x, x) (λ _, "0.1") payload_table
                    "Accuracy" "html" INone ∅)).
    + rewrite !elem_of_cons. tauto.
    + rewrite !elem_of_cons, elem_of_nil. intros [H|[H|[H|[]]]]; discriminate H.
Defined.

(** X17. A successful [to_json] only adds objects: every object that was on
    the heap before the call is there, unchanged, after it. *)
Theorem to_json_preserves_heap round2 float_str dataframe vartype html_type
    incremental_val h :
  vartype ∈ ["Continuous"; "Categorical"; "Accuracy"; "Percentile"] →
  html_type ∈ ["error"; "sensitivity"; "percentile"] →
  ∃ v h',
    to_json round2 float_str dataframe vartype html_type incremental_val h
      = (Ok v, h') ∧
    ∀ l o, h !! l = Some o → h' !! l = Some o.
Proof.
  intros Hvt Hht.
  destruct (to_json_spec round2 float_str dataframe vartype html_type
              incremental_val h Hvt Hht)
    as (l & ldata & ls & h' & Heq & _ & Hsub & _).
  exists (VRef l), h'. split; [exact Heq|].
  intros l' o Hl'. by eapply lookup_weaken.
Qed.

Lemma to_json_preserves_heap_witness :
  ∃ v h',
    to_json (λ x, x) (λ _, "0.1") payload_table "Accuracy" "error" INone two_payloads
      = (Ok v, h') ∧
    ∀ l o, two_payloads !! l = Some o → h' !! l = Some o.
Proof.
  apply (to_json_preserves_heap (λ x, x) (λ _, "0.1") payload_table
           "Accuracy" "error" INone two_payloads).
  - rewrite !elem_of_cons. tauto.
  - rewrite !elem_of_cons. tauto.
Defined.



(** X19. For html_type sensitivity the payload's [Change] is the text of
    [incremental_val]: a float is first rounded to two places, an integer is
    written in decimal, a string is kept, and [None] gives the text None. *)
Theorem to_json_sensitivity_change round2 float_str dataframe vartype
    incremental_val h :
  vartype ∈ ["Continuous"; "Categorical"; "Accuracy"; "Percentile"] →
  ∃ l d h',
    to_json round2 float_str dataframe vartype "sensitivity" incremental_val h
      = (Ok (VRef l), h') ∧
    h' !! l = Some (HDict d) ∧
    d !! "Type" = Some (VStr vartype) ∧
    d !! "Change" = Some (VStr match incremental_val with
                               | INone => "None"
                               | IInt z => pretty z
                               | IFloat x => float_str (round2 x)
                               | IStr s => s
                               end).
Proof.
  intros Hvt.
  destruct (to_json_spec round2 float_str dataframe vartype "sensitivity"
              incremental_val h Hvt)
    as (l & ldata & ls & h' & Heq & _ & _ & Hl & _).
  { rewrite !elem_of_cons. tauto. }
  rewrite decide_True in Hl by done.
  eexists l, _, h'. split; [exact Heq|]. split; [exact Hl|].
  split; [by simplify_map_eq|].
  rewrite lookup_insert_ne by done. rewrite lookup_insert_eq.
  by destruct incremental_val.
Qed.

Lemma to_json_sensitivity_change_witness :
  ∃ l d h',
    to_json (λ x, x) (λ _, "0.1") payload_table "Continuous" "sensitivity" (IInt 5) ∅
      = (Ok (VRef l), h') ∧
    h' !! l = Some (HDict d) ∧
    d !! "Type" = Some (VStr "Continuous") ∧
    d !! "Change" = Some (VStr (pretty 5%Z)).
Proof.
  apply (to_json_sensitivity_change (λ x, x) (λ _, "0.1") payload_table
           "Continuous" (IInt 5) ∅).
  rewrite !elem_of_cons. tauto.
Defined.

(** ** More on [flatten_json] *)

Lemma data_loc_of_payload_data h v items :
  payload_data h v = Some items → ∃ l, data_loc h v = Some l.
Proof.
  unfold payload_data. destruct (data_loc h v) as [l|]; [eauto|done].
Qed.

(** [flatten_json] on payloads, none of which from the third on shares the
    first one's list: the first payload is returned, and the only change to
    the heap is that its list has grown by the items of the others. *)
Lemma flatten_json_payloads h dictlist first :
  dictlist !! 0 = Some first →
  Forall (λ v, is_Some (payload_data h v)) dictlist →
  Forall (λ v, data_loc h v ≠ data_loc h first) (drop 2 dictlist) →
  ∃ l0 acc0 datas,
    data_loc h first = Some l0 ∧
    h !! l0 = Some (HList acc0) ∧
    payload_data h first = Some acc0 ∧
    mapM (payload_data h) (drop 1 dictlist) = Some datas ∧
    flatten_json dictlist h
      = (Ok first, <[l0 := HList (acc0 ++ concat datas)]> h) ∧
    payload_data (<[l0 := HList (acc0 ++ concat datas)]> h) first
      = Some (acc0 ++ concat datas).
Proof.
  intros H0 Hall Hne.
  destruct dictlist as [|first' rest]; [discriminate|].
  injection H0 as ->.
  apply Forall_cons in Hall as [[acc0 Hfirst] Hrest].
  apply mapM_is_Some_2 in Hrest as [datas Hdatas].
  pose proof Hdatas as Hmap. apply mapM_Some_1 in Hdatas.
  pose proof Hfirst as Hfirst'.
  apply payload_data_inv in Hfirst' as (p0 & d0 & l0 & -> & Hp0 & Hd0 & Hl0).
  assert (data_loc h (VRef p0) = Some l0) as Hloc.
  { unfold data_loc, payload_dict. by rewrite Hp0, Hd0. }
  rewrite Hloc in Hne. change (drop 2 (VRef p0 :: rest)) with (drop 1 rest) in Hne.
  exists l0, acc0, datas.
  split; [done|]. split; [done|]. split; [done|]. split; [done|].
  split; [by apply (flatten_json_spec h p0 d0 l0 acc0 rest datas)|].
  by eapply payload_data_after_grow.
Qed.

Lemma for_in_app {A} (xs ys : list A) (body : A → M ()) h :
  for_in (xs ++ ys) body h
    = match for_in xs body h with
      | (Ok _, h') => for_in ys body h'
      | (Raise e, h') => (Raise e, h')
      end.
Proof.
  revert h. induction xs as [|x xs IH]; intros h; simpl; [done|].
  unfold mbind, M_bind. destruct (body x h) as [[[]|e] h1]; [|done].
  apply IH.
Qed.

Lemma mbind_M_raise {A B} (m : M A) (k : A → M B) h e h' :
  m h = (Raise e, h') → (m ≫= k) h = (Raise e, h').
Proof. intros Hm. unfold mbind, M_bind. by rewrite Hm. Qed.

(** X20. On an empty list [flatten_json] fails with [IndexError], and on a
    one-element list whose element is not a dict it fails with the
    [AssertionError] that names the element's type; the heap is not
    touched. *)
Theorem flatten_json_degenerate_inputs h :
  flatten_json [] h = (Raise (IndexError "list index out of range"), h) ∧
  ∀ v, is_dict h v = false →
       flatten_json [v] h
         = (Raise (AssertionError (flatten_json_assert_msg h v)), h).
Proof.
  split; [done|]. intros v Hv.
  unfold flatten_json, mbind, M_bind, list_getitem, assert_dict. simpl.
  by rewrite Hv.
Qed.

(** X21. Under the conditions of the corrected claim on flattening, the call
    returns the first payload itself and writes to one object only, the list
    under the first payload's [Data]: every other object, the later payloads
    and their lists among them, is left as it was. *)
Theorem flatten_json_frame h dictlist first :
  dictlist !! 0 = Some first →
  Forall (λ v, is_Some (payload_data h v)) dictlist →
  Forall (λ v, data_loc h v ≠ data_loc h first) (drop 2 dictlist) →
  ∃ h',
    flatten_json dictlist h = (Ok first, h') ∧
    dom h' = dom h ∧
    ∀ l, data_loc h first ≠ Some l → h' !! l = h !! l.
Proof.
  intros H0 Hall Hne.
  destruct (flatten_json_payloads h dictlist first H0 Hall Hne)
    as (l0 & acc0 & datas & Hloc & Hl0 & _ & _ & Hflat & _).
  eexists. split; [exact Hflat|]. split.
  - rewrite dom_insert_L. apply subseteq_union_1_L, singleton_subseteq_l.
    by eapply elem_of_dom_2.
  - intros l Hl. rewrite lookup_insert_ne; [done|congruence].
Qed.

Lemma flatten_json_frame_witness :
  ∃ h',
    flatten_json [VRef 1%positive; VRef 2%positive] two_payloads
      = (Ok (VRef 1%positive), h') ∧
    dom h' = dom two_payloads ∧
    ∀ l, data_loc two_payloads (VRef 1%positive) ≠ Some l →
         h' !! l = two_payloads !! l.
Proof.
  apply (flatten_json_frame two_payloads [VRef 1%positive; VRef 2%positive]
           (VRef 1%positive)).
  - reflexivity.
  - repeat constructor; vm_compute; eauto.
  - constructor.
Defined.

(** X22. Under the same conditions, whenever a payload after the first has an
    item, the [Data] of the caller's first payload is longer after the call
    than before it: the input is modified in place. *)
Theorem flatten_json_modifies_first_payload h dictlist first v items :
  dictlist !! 0 = Some first →
  Forall (λ v, is_Some (payload_data h v)) dictlist →
  Forall (λ v, data_loc h v ≠ data_loc h first) (drop 2 dictlist) →
  v ∈ drop 1 dictlist →
  payload_data h v = Some items →
  items ≠ [] →
  ∃ h' before after,
    flatten_json dictlist h = (Ok first, h') ∧
    payload_data h first = Some before ∧
    payload_data h' first = Some after ∧
    length before < length after.
Proof.
  intros H0 Hall Hne Hv Hitems Hnonempty.
  destruct (flatten_json_payloads h dictlist first H0 Hall Hne)
    as (l0 & acc0 & datas & Hloc & Hl0 & Hbefore & Hdatas & Hflat & Hafter).
  eexists _, acc0, _. split; [exact Hflat|]. split; [exact Hbefore|].
  split; [exact Hafter|].
  rewrite length_app.
  apply mapM_Some_1 in Hdatas.
  apply list_elem_of_lookup in Hv as [i Hi].
  destruct (Forall2_lookup_l _ _ _ _ _ Hdatas Hi) as (items' & Hi' & Hitems').
  assert (items' = items) as -> by congruence.
  assert (items ∈ datas) as Hin by (by eapply list_elem_of_lookup_2).
  assert (0 < length (concat datas)); [|lia].
  apply list_elem_of_split in Hin as (l1 & l2 & ->).
  rewrite concat_app, concat_cons, !length_app.
  destruct items; [done|simpl; lia].
Qed.

Lemma flatten_json_modifies_first_payload_witness :
  ∃ h' before after,
    flatten_json [VRef 1%positive; VRef 2%positive] two_payloads
      = (Ok (VRef 1%positive), h') ∧
    payload_data two_payloads (VRef 1%positive) = Some before ∧
    payload_data h' (VRef 1%positive) = Some after ∧
    length before < length after.
Proof.
  apply (flatten_json_modifies_first_payload two_payloads
           [VRef 1%positive; VRef 2%positive] (VRef 1%positive)
           (VRef 2%positive) [VStr "b"]).
  - reflexivity.
  - repeat constructor; vm_compute; eauto.
  - constructor.
  - simpl. constructor.
  - reflexivity.
  - discriminate.
Defined.

(** X23. A failure part of the way is not undone: when a payload after the
    first is a dict without a [Data] key, the call fails with
    [KeyError('Data')], and the first payload's list has by then grown by
    the items of the payloads before the broken one. *)
Theorem flatten_json_partial_failure h first good broken rest l0 acc0 datas db pb :
  data_loc h first = Some l0 →
  payload_data h first = Some acc0 →
  Forall2 (λ v items, payload_data h v = Some items) good datas →
  Forall (λ v, data_loc h v ≠ Some l0) good →
  broken = VRef pb →
  h !! pb = Some (HDict db) →
  db !! "Data" = None →
  flatten_json (first :: good ++ broken :: rest) h
    = (Raise (KeyError "Data"), <[l0 := HList (acc0 ++ concat datas)]> h).
Proof.
  intros Hloc Hfirst Hgood Hne -> Hpb Hdb.
  apply data_loc_inv in Hloc as (p0 & d0 & -> & Hp0 & Hd0).
  assert (h !! l0 = Some (HList acc0)) as Hl0.
  { apply payload_data_inv in Hfirst as (p & d & l & Hp & Hp' & Hd & Hl).
    injection Hp as <-. congruence. }
  assert (p0 ≠ l0) as Hpl by congruence.
  assert (pb ≠ l0) as Hpbl by congruence.
  set (copydict := VRef p0 :: good ++ VRef pb :: rest).
  assert (for_in good (flatten_step copydict) h
          = (Ok (), <[l0 := HList (acc0 ++ concat datas)]> h)) as Hloop.
  { rewrite <- (insert_id h l0 (HList acc0)) at 1 by done.
    by apply (flatten_loop_spec h copydict p0 d0 l0 acc0 good datas). }
  assert (flatten_step copydict (VRef pb) (<[l0 := HList (acc0 ++ concat datas)]> h)
          = (Raise (KeyError "Data"), <[l0 := HList (acc0 ++ concat datas)]> h))
    as Hstep.
  { unfold flatten_step, mbind, M_bind, list_getitem, getitem_str, extend_method.
    simpl. rewrite (lookup_insert_ne _ l0 p0) by done. rewrite Hp0, Hd0.
    rewrite lookup_insert_eq. rewrite (lookup_insert_ne _ l0 pb) by done.
    by rewrite Hpb, Hdb. }
  assert (for_in (good ++ VRef pb :: rest) (flatten_step copydict) h
          = (Raise (KeyError "Data"), <[l0 := HList (acc0 ++ concat datas)]> h))
    as Hfail.
  { rewrite for_in_app, Hloop. simpl.
    by apply mbind_M_raise. }
  unfold flatten_json.
  rewrite decide_True by (simpl; rewrite length_app; simpl; lia).
  apply mbind_M_raise, mbind_M_raise. exact Hfail.
Qed.

Lemma flatten_json_partial_failure_witness :
  flatten_json (VRef 1%positive :: [VRef 2%positive] ++ VRef 5%positive :: [])
    payloads_with_broken
    = (Raise (KeyError "Data"),
       <[3%positive := HList ([VStr "a"] ++ concat [[VStr "b"]])]> payloads_with_broken).
Proof.
  apply (flatten_json_partial_failure payloads_with_broken (VRef 1%positive)
           [VRef 2%positive] (VRef 5%positive) [] 3%positive [VStr "a"]
           [[VStr "b"]] {[ "Type" := VStr "Continuous" ]} 5%positive).
  - reflexivity.
  - reflexivity.
  - repeat constructor.
  - repeat constructor. vm_compute. discriminate.
  - reflexivity.
  - reflexivity.
  - reflexivity.
Defined.

(** X24. Flattening can be done in steps: flattening [a, b] and then the
    result with [c] leaves the heap as flattening [a, b, c] at once does,
    when [c] does not share [a]'s list. *)
Theorem flatten_json_in_steps h a b c :
  is_Some (payload_data h a) →
  is_Some (payload_data h b) →
  is_Some (payload_data h c) →
  data_loc h c ≠ data_loc h a →
  ∃ h1 h2,
    flatten_json [a; b] h = (Ok a, h1) ∧
    flatten_json [a; c] h1 = (Ok a, h2) ∧
    flatten_json [a; b; c] h = (Ok a, h2).
Proof.
  intros [acc0 Ha] [db Hb] [dc Hc] Hne.
  pose proof Ha as Ha'.
  apply payload_data_inv in Ha' as (p0 & d0 & l0 & -> & Hp0 & Hd0 & Hl0).
  assert (data_loc h (VRef p0) = Some l0) as Hloc.
  { unfold data_loc, payload_dict. by rewrite Hp0, Hd0. }
  rewrite Hloc in Hne. assert (p0 ≠ l0) as Hpl by congruence.
  exists (<[l0 := HList (acc0 ++ concat [db])]> h),
         (<[l0 := HList (acc0 ++ concat [db; dc])]> h).
  split; [|split].
  - apply (flatten_json_spec h p0 d0 l0 acc0 [b] [db]); try done.
    by repeat constructor.
  - rewrite (flatten_json_spec _ p0 d0 l0 (acc0 ++ concat [db]) [c] [dc]).
    + rewrite insert_insert_eq. simpl. by rewrite !app_nil_r, app_assoc.
    + by rewrite lookup_insert_ne.
    + done.
    + apply lookup_insert_eq.
    + repeat constructor. by erewrite payload_data_grow.
    + constructor.
  - apply (flatten_json_spec h p0 d0 l0 acc0 [b; c] [db; dc]); try done.
    + by repeat constructor.
    + by repeat constructor.
Qed.

Lemma flatten_json_in_steps_witness :
  ∃ h1 h2,
    flatten_json [VRef 1%positive; VRef 2%positive] two_payloads
      = (Ok (VRef 1%positive), h1) ∧
    flatten_json [VRef 1%positive; VRef 2%positive] h1 = (Ok (VRef 1%positive), h2) ∧
    flatten_json [VRef 1%positive; VRef 2%positive; VRef 2%positive] two_payloads
      = (Ok (VRef 1%positive), h2).
Proof.
  apply (flatten_json_in_steps two_payloads (VRef 1%positive) (VRef 2%positive)
           (VRef 2%positive)).
  - vm_compute. eauto.
  - vm_compute. eauto.
  - vm_compute. eauto.
  - vm_compute. discriminate.
Defined.

Lemma payload_data_weaken h h' v items :
  h ⊆ h' → payload_data h v = Some items → payload_data h' v = Some items.
Proof.
  intros Hsub Hv.
  apply payload_data_inv in Hv as (p & d & l & -> & Hp & Hd & Hl).
  unfold payload_data, data_loc, payload_dict.
  rewrite (lookup_weaken _ _ _ _ Hp Hsub), Hd.
  by rewrite (lookup_weaken _ _ _ _ Hl Hsub).
Qed.

(** X25. Serializing two tables one after the other and flattening the two
    payloads gives the first payload, of the first call's [Type], with one
    record for every row of the first table followed by one for every row of
    the second. *)
Theorem flatten_json_of_to_json round2 float_str df1 df2 vartype1 html_type1
    incremental_val1 vartype2 html_type2 incremental_val2 h :
  vartype1 ∈ ["Continuous"; "Categorical"; "Accuracy"; "Percentile"] →
  html_type1 ∈ ["error"; "sensitivity"; "percentile"] →
  vartype2 ∈ ["Continuous"; "Categorical"; "Accuracy"; "Percentile"] →
  html_type2 ∈ ["error"; "sensitivity"; "percentile"] →
  ∃ p1 h1 p2 h2 h3 rows1 rows2 d,
    to_json round2 float_str df1 vartype1 html_type1 incremental_val1 h = (Ok p1, h1) ∧
    to_json round2 float_str df2 vartype2 html_type2 incremental_val2 h1 = (Ok p2, h2) ∧
    payload_data h2 p1 = Some rows1 ∧ length rows1 = nrows df1 ∧
    payload_data h2 p2 = Some rows2 ∧ length rows2 = nrows df2 ∧
    flatten_json [p1; p2] h2 = (Ok p1, h3) ∧
    payload_data h3 p1 = Some (rows1 ++ rows2) ∧
    payload_dict h3 p1 = Some d ∧
    d !! "Type" = Some (VStr vartype1).
Proof.
  intros Hvt1 Hht1 Hvt2 Hht2.
  destruct (to_json_spec round2 float_str df1 vartype1 html_type1 incremental_val1
              h Hvt1 Hht1)
    as (l1 & ld1 & ls1 & h1 & Heq1 & _ & _ & Hl1 & Hd1 & Hrows1).
  destruct (to_json_spec round2 float_str df2 vartype2 html_type2 incremental_val2
              h1 Hvt2 Hht2)
    as (l2 & ld2 & ls2 & h2 & Heq2 & _ & Hsub & Hl2 & Hd2 & Hrows2).
  pose proof (Forall2_length _ _ _ Hrows1) as Hlen1. rewrite length_seq in Hlen1.
  pose proof (Forall2_length _ _ _ Hrows2) as Hlen2. rewrite length_seq in Hlen2.
  set (d1 := <["Data" := VRef ld1]> _) in Hl1.
  assert (d1 !! "Data" = Some (VRef ld1)) as Hdata1 by apply lookup_insert_eq.
  assert (payload_data h1 (VRef l1) = Some (VRef <$> ls1)) as Hp1.
  { unfold payload_data, data_loc, payload_dict.
    by rewrite Hl1, Hdata1, Hd1. }
  assert (payload_data h2 (VRef l2) = Some (VRef <$> ls2)) as Hp2.
  { unfold payload_data, data_loc, payload_dict.
    by rewrite Hl2, lookup_insert_eq, Hd2. }
  assert (h2 !! l1 = Some (HDict d1)) as Hl1' by (by eapply lookup_weaken).
  assert (h2 !! ld1 = Some (HList (VRef <$> ls1))) as Hd1'
    by (by eapply lookup_weaken).
  exists (VRef l1), h1, (VRef l2), h2,
    (<[ld1 := HList ((VRef <$> ls1) ++ concat [VRef <$> ls2])]> h2),
    (VRef <$> ls1), (VRef <$> ls2), d1.
  split; [exact Heq1|]. split; [exact Heq2|].
  split; [by eapply payload_data_weaken|]. split; [by rewrite length_fmap|].
  split; [exact Hp2|]. split; [by rewrite length_fmap|].
  split; [|split; [|split]].
  - apply (flatten_json_spec h2 l1 d1 ld1 (VRef <$> ls1) [VRef l2] [VRef <$> ls2]);
      try done.
    by repeat constructor.
  - erewrite payload_data_after_grow by done. simpl. by rewrite app_nil_r.
  - erewrite payload_dict_grow by done. unfold payload_dict. by rewrite Hl1'.
  - unfold d1. rewrite lookup_insert_ne by done.
    destruct (decide (html_type1 = "sensitivity")); by simplify_map_eq.
Qed.

Lemma flatten_json_of_to_json_witness :
  ∃ p1 h1 p2 h2 h3 rows1 rows2 d,
    to_json (λ x, x) (λ _, "0.1") payload_table "Accuracy" "error" INone ∅ = (Ok p1, h1) ∧
    to_json (λ x, x) (λ _, "0.1") mixed_frame "Accuracy" "error" INone h1 = (Ok p2, h2) ∧
    payload_data h2 p1 = Some rows1 ∧ length rows1 = nrows payload_table ∧
    payload_data h2 p2 = Some rows2 ∧ length rows2 = nrows mixed_frame ∧
    flatten_json [p1; p2] h2 = (Ok p1, h3) ∧
    payload_data h3 p1 = Some (rows1 ++ rows2) ∧
    payload_dict h3 p1 = Some d ∧
    d !! "Type" = Some (VStr "Accuracy").
Proof.
  apply (flatten_json_of_to_json (λ x, x) (λ _, "0.1") payload_table mixed_frame
           "Accuracy" "error" INone "Accuracy" "error" INone ∅).
  - rewrite !elem_of_cons. tauto.
  - rewrite !elem_of_cons. tauto.
  - rewrite !elem_of_cons. tauto.
  - rewrite !elem_of_cons. tauto.
Defined.

(** ** The accuracy table *)

Lemma result_mapM_Forall2 {A B} (f : A → result B) xs ys :
  Forall2 (λ x y, f x = Ok y) xs ys → mapM f xs = Ok ys.
Proof.
  induction 1 as [|x y xs ys Hxy _ IH]; simpl; [done|].
  rewrite Hxy. simpl. by rewrite IH.
Qed.

Lemma assoc_lookup_fmap_values {A B} (f : A → B) name (l : list (string * A)) :
  assoc_lookup name ((λ nc, (nc.1, f nc.2)) <$> l) = f <$> assoc_lookup name l.
Proof.
  induction l as [|[k v] l IH]; simpl; [done|].
  by destruct (decide (name = k)).
Qed.

Lemma mask_select_length {A} (m : list bool) (xs : list A) :
  length m = length xs →
  length (mask_select m xs) = length (filter (λ b, b = true) m).
Proof.
  revert xs. induction m as [|b m IH]; intros [|x xs] Hlen; simpl in *; try done.
  rewrite filter_cons. destruct b; simpl.
  - f_equal. apply IH. lia.
  - apply IH. lia.
Qed.

Lemma key_mask_count keys k :
  length (filter (λ b, b = true) (key_mask keys k)) = key_count keys k.
Proof.
  unfold key_mask, key_count. induction keys as [|o keys IH]; [done|].
  rewrite fmap_cons, !filter_cons. destruct (decide (o = Some k)) as [Ho|Ho].
  - rewrite bool_decide_eq_true_2 by done. rewrite decide_True by done.
    simpl. by rewrite IH.
  - rewrite bool_decide_eq_false_2 by done. by rewrite decide_False by done.
Qed.

(** The mask that [groupby] computes from the keys of a text column. *)
Lemma groupby_mask keys k :
  (λ k' : option scalar, bool_decide (k' = Some (SStr k))) <$> row_keys (Object keys)
    = key_mask keys k.
Proof.
  unfold row_keys, key_mask. rewrite <- list_fmap_compose.
  apply list_fmap_ext. intros i o _. simpl.
  apply bool_decide_ext. destruct o as [s|]; simpl; [|done].
  split; intros H; by simplify_eq.
Qed.

Lemma key_count_pos keys k : Some k ∈ keys → 0 < key_count keys k.
Proof.
  intros Hin. unfold key_count.
  assert (Some k ∈ filter (λ o, o = Some k) keys) as Hf
    by (by apply list_elem_of_filter).
  destruct (filter _ keys); [by apply elem_of_nil in Hf|simpl; lia].
Qed.

Lemma distinct_keys_elem_of keys k : k ∈ distinct_keys keys ↔ Some k ∈ keys.
Proof.
  unfold distinct_keys. rewrite sorted_uniq_elem_of, list_elem_of_omap. split.
  - by intros ([s|] & Hin & [= ->]).
  - intros Hin. by exists (Some k).
Qed.

Lemma append_insight_table error_type a b c d n a' b' c' d' n' :
  error_type ∈ ["MSE"; "RMSE"; "MAE"; "RAW"] →
  append_frame (insight_table error_type a b c d n)
               (insight_table error_type a' b' c' d' n')
    = insight_table error_type (a ++ a') (b ++ b') (c ++ c') (d ++ d') (n + n').
Proof.
  intros Het. rewrite !elem_of_cons, elem_of_nil in Het.
  unfold append_frame, insight_table.
  destruct Het as [->|[->|[->|[->|[]]]]]; simpl; by rewrite fmap_app.
Qed.

Lemma concat_insight_rows error_type group_var
    (items : list (string * R * R)) a b c d n :
  error_type ∈ ["MSE"; "RMSE"; "MAE"; "RAW"] →
  foldl append_frame (insight_table error_type a b c d n)
        ((λ i, insight_table error_type [i.1.1] [group_var] [i.1.2] [i.2] 1) <$> items)
    = insight_table error_type (a ++ items.*1.*1)
        (b ++ replicate (length items) group_var)
        (c ++ items.*1.*2) (d ++ items.*2) (n + length items).
Proof.
  intros Het. revert a b c d n.
  induction items as [|[[k s] t] items IH]; intros a b c d n; simpl.
  - by rewrite !app_nil_r, Nat.add_0_r.
  - rewrite append_insight_table by done. rewrite IH.
    rewrite <- !app_assoc. simpl. f_equal. lia.
Qed.

Lemma statistic_is_Some error_type e :
  error_type ∈ ["MSE"; "RMSE"; "MAE"; "RAW"] →
  Spec.statistic error_type e = Some (default 0%R (Spec.statistic error_type e)).
Proof.
  intros Het. rewrite !elem_of_cons, elem_of_nil in Het.
  by destruct Het as [->|[->|[->|[->|[]]]]].
Qed.

(** The row that [create_insights] returns for the group of the label [k]
    of a text key column. *)
Lemma create_insights_of_group cat_df col keys dt e error_type k :
  frame_wf cat_df →
  assoc_lookup col (columns cat_df) = Some (Object keys) →
  assoc_lookup "errors" (columns cat_df) = Some (Numeric dt e) →
  error_type ∈ ["MSE"; "RMSE"; "MAE"; "RAW"] →
  Some k ∈ keys →
  create_insights {| gframe := frame_rows (key_mask keys k) cat_df; gname := SStr k |}
                  (Some col) error_type
    = Ok (insight_table error_type [k] [Some col]
            [default 0%R (Spec.statistic error_type (group_residuals keys e k))]
            [INR (key_count keys k)] 1).
Proof.
  intros Hwf Hcol Herr Het Hk.
  pose proof (frame_wf_column_length _ _ _ Hwf Hcol) as Hlk. simpl in Hlk.
  pose proof (frame_wf_column_length _ _ _ Hwf Herr) as Hle. simpl in Hle.
  assert (length (key_mask keys k) = length keys) as Hlm
    by (unfold key_mask; by rewrite length_fmap).
  set (group := {| gframe := frame_rows (key_mask keys k) cat_df; gname := SStr k |}).
  assert (nrows (gframe group) = key_count keys k) as Hn.
  { simpl. rewrite take_ge by lia. apply key_mask_count. }
  assert (assoc_lookup "errors" (columns (gframe group))
          = Some (Numeric dt (group_residuals keys e k))) as Herr'.
  { simpl. rewrite (assoc_lookup_fmap_values (column_rows (key_mask keys k))).
    by rewrite Herr. }
  assert (length (group_residuals keys e k) = key_count keys k) as Hlen.
  { unfold group_residuals. rewrite mask_select_length by lia.
    apply key_mask_count. }
  destruct (create_insights_numeric group (Some col) error_type dt
              (group_residuals keys e k) Herr' Het) as (stat & Hstat & Hout).
  rewrite error_dict_statistic in Hstat; [|lia| |done].
  - rewrite Hout, Hn. rewrite statistic_is_Some in Hstat by done.
    injection Hstat as <-. done.
  - rewrite Hlen. by apply key_count_pos.
Qed.

(** The table that [groupby(col).apply(create_insights, ...)] returns for a
    text key column with at least one label. *)
Lemma groupby_apply_insights cat_df col keys dt e error_type :
  frame_wf cat_df →
  assoc_lookup col (columns cat_df) = Some (Object keys) →
  assoc_lookup "errors" (columns cat_df) = Some (Numeric dt e) →
  error_type ∈ ["MSE"; "RMSE"; "MAE"; "RAW"] →
  distinct_keys keys ≠ [] →
  groupby_apply cat_df (Some col) (λ g, create_insights g (Some col) error_type)
    = Ok (insight_table error_type (distinct_keys keys)
            (replicate (length (distinct_keys keys)) (Some col))
            ((λ k, default 0%R (Spec.statistic error_type (group_residuals keys e k)))
               <$> distinct_keys keys)
            ((λ k, INR (key_count keys k)) <$> distinct_keys keys)
            (length (distinct_keys keys))).
Proof.
  intros Hwf Hcol Herr Het Hne.
  unfold groupby_apply, groupby, getitem. rewrite Hcol. simpl.
  fold (distinct_keys keys).
  set (item := λ k, (k, default 0%R (Spec.statistic error_type (group_residuals keys e k)),
                     INR (key_count keys k))).
  set (row := λ i : string * R * R,
                insight_table error_type [i.1.1] [Some col] [i.1.2] [i.2] 1).
  rewrite (result_mapM_Forall2 _ _ (row <$> (item <$> distinct_keys keys))).
  - simpl. f_equal.
    destruct (distinct_keys keys) as [|k ks] eqn:Hks; [done|].
    simpl. change (row (item k)) with
      (insight_table error_type [k] [Some col]
         [default 0%R (Spec.statistic error_type (group_residuals keys e k))]
         [INR (key_count keys k)] 1).
    unfold row. rewrite (concat_insight_rows error_type (Some col)) by done.
    rewrite length_fmap. unfold insight_table. simpl.
    rewrite <- !list_fmap_compose. done.
  - rewrite <- !list_fmap_compose. apply Forall2_fmap, Forall_Forall2_diag.
    apply Forall_forall. intros k Hk.
    change (create_insights
              {| gframe :=
                   frame_rows
                     ((λ k' : option scalar, bool_decide (k' = Some (SStr k)))
                        <$> row_keys (Object keys)) cat_df;
                 gname := SStr k |} (Some col) error_type
            = Ok (row (item k))).
    rewrite groupby_mask.
    apply (create_insights_of_group cat_df col keys dt e error_type k); try done.
    by apply distinct_keys_elem_of.
Qed.

Lemma create_accuracy_table model_type cat_df error_type col keys dt e :
  frame_wf cat_df →
  assoc_lookup col (columns cat_df) = Some (Object keys) →
  assoc_lookup "errors" (columns cat_df) = Some (Numeric dt e) →
  effective_error_type model_type error_type ∈ ["MSE"; "RMSE"; "MAE"; "RAW"] →
  distinct_keys keys ≠ [] →
  create_accuracy model_type cat_df error_type (Some col)
    = Ok (insight_table (effective_error_type model_type error_type)
            (distinct_keys keys)
            (replicate (length (distinct_keys keys)) (Some col))
            ((λ k, default 0%R (Spec.statistic
                                  (effective_error_type model_type error_type)
                                  (group_residuals keys e k)))
               <$> distinct_keys keys)
            ((λ k, INR (key_count keys k)) <$> distinct_keys keys)
            (length (distinct_keys keys))).
Proof.
  intros Hwf Hcol Herr Het Hne. unfold create_accuracy, reset_index_drop.
  fold (effective_error_type model_type error_type).
  by rewrite (groupby_apply_insights cat_df col keys dt e).
Qed.

(** X26. Grouping by a column that the table does not have fails with the
    [KeyError] of that column name, whatever the model type and the error
    type. *)
Theorem create_accuracy_missing_groupby_column model_type cat_df error_type col :
  assoc_lookup col (columns cat_df) = None →
  create_accuracy model_type cat_df error_type (Some col) = Raise (KeyError col).
Proof.
  intros Hcol. unfold create_accuracy, groupby_apply, groupby, getitem.
  by rewrite Hcol.
Qed.

Lemma create_accuracy_missing_groupby_column_witness :
  create_accuracy "regression" accuracy_setup "MSE" (Some "col3")
    = Raise (KeyError "col3").
Proof.
  apply (create_accuracy_missing_groupby_column "regression" accuracy_setup
           "MSE" "col3").
  reflexivity.
Defined.

(** X27. For a well-formed table with numeric residuals, grouped by a text
    column with at least one label, [create_accuracy] returns a well-formed
    table of four columns with one row per distinct label: [groupByValue]
    lists the labels that occur, each once, in increasing order, and
    [groupByVarName] repeats the name of the grouping column. *)
Theorem create_accuracy_one_row_per_label model_type cat_df error_type col keys dt e :
  frame_wf cat_df →
  assoc_lookup col (columns cat_df) = Some (Object keys) →
  assoc_lookup "errors" (columns cat_df) = Some (Numeric dt e) →
  effective_error_type model_type error_type ∈ ["MSE"; "RMSE"; "MAE"; "RAW"] →
  distinct_keys keys ≠ [] →
  ∃ out labels,
    create_accuracy model_type cat_df error_type (Some col) = Ok out ∧
    frame_wf out ∧
    shape out = (length labels, 4) ∧
    column_names out
      ≡ₚ ["groupByValue"; "groupByVarName";
          effective_error_type model_type error_type; "Total"] ∧
    assoc_lookup "groupByValue" (columns out) = Some (Object (Some <$> labels)) ∧
    assoc_lookup "groupByVarName" (columns out)
      = Some (Object (replicate (length labels) (Some col))) ∧
    StronglySorted (λ a b, String.compare a b = Lt) labels ∧
    (∀ k, k ∈ labels ↔ Some k ∈ keys).
Proof.
  intros Hwf Hcol Herr Het Hne.
  eexists _, (distinct_keys keys).
  split; [by apply (create_accuracy_table _ _ _ col keys dt e)|].
  split; [|split; [done|split; [done|split; [done|split; [done|split]]]]].
  - unfold frame_wf, insight_table. simpl.
    repeat constructor; simpl; by rewrite ?length_fmap, ?length_replicate.
  - apply sorted_uniq_sorted.
  - apply distinct_keys_elem_of.
Qed.

Lemma create_accuracy_one_row_per_label_witness :
  ∃ out labels,
    create_accuracy "regression" accuracy_setup "MSE" (Some "col2") = Ok out ∧
    frame_wf out ∧
    shape out = (length labels, 4) ∧
    column_names out
      ≡ₚ ["groupByValue"; "groupByVarName";
          effective_error_type "regression" "MSE"; "Total"] ∧
    assoc_lookup "groupByValue" (columns out) = Some (Object (Some <$> labels)) ∧
    assoc_lookup "groupByVarName" (columns out)
      = Some (Object (replicate (length labels) (Some "col2"))) ∧
    StronglySorted (λ a b, String.compare a b = Lt) labels ∧
    (∀ k, k ∈ labels ↔ Some k ∈ [Some "a"; Some "a"; Some "b"; Some "b"]).
Proof.
  apply (create_accuracy_one_row_per_label "regression" accuracy_setup "MSE" "col2"
           [Some "a"; Some "a"; Some "b"; Some "b"] float64 [1; 2; 3; 4]%R).
  - repeat constructor.
  - reflexivity.
  - reflexivity.
  - apply (bool_decide_unpack _). reflexivity.
  - discriminate.
Defined.



Lemma sum_list_fmap_add {A} (f g : A → nat) l :
  sum_list ((λ x, f x + g x) <$> l) = sum_list (f <$> l) + sum_list (g <$> l).
Proof. induction l as [|x l IH]; csimpl; [done|]. rewrite IH. lia. Qed.

Lemma indicator_sum (o : option string) ks :
  NoDup ks →
  sum_list ((λ k, if decide (o = Some k) then 1 else 0) <$> ks)
    = match o with
      | Some s => if decide (s ∈ ks) then 1 else 0
      | None => 0
      end.
Proof.
  induction 1 as [|k ks Hk _ IH]; csimpl.
  - by destruct o.
  - rewrite IH. destruct o as [s|]; [|by rewrite decide_False].
    destruct (decide (Some s = Some k)) as [[= ->]|Hne].
    + rewrite (decide_False (P := k ∈ ks)) by done.
      by rewrite decide_True by left.
    + destruct (decide (s ∈ ks)) as [Hin|Hin].
      * by rewrite decide_True by (by right).
      * rewrite decide_False; [done|].
        rewrite elem_of_cons. intros [->|]; [by apply Hne|done].
Qed.

Lemma key_count_cons o keys k :
  key_count (o :: keys) k = (if decide (o = Some k) then 1 else 0) + key_count keys k.
Proof. unfold key_count. rewrite filter_cons. by destruct (decide _). Qed.

(** Every row with a label is counted under exactly one label. *)
Lemma key_counts_partition keys ks :
  NoDup ks →
  (∀ k, Some k ∈ keys → k ∈ ks) →
  sum_list (key_count keys <$> ks) = length (omap (λ o : option string, o) keys).
Proof.
  intros Hnd. induction keys as [|o keys IH]; intros Hks.
  - csimpl. clear. induction ks as [|k ks IHks]; [done|].
    csimpl. by rewrite IHks.
  - rewrite (list_fmap_ext (key_count (o :: keys))
               (λ k, (if decide (o = Some k) then 1 else 0) + key_count keys k) ks)
      by (intros; apply key_count_cons).
    rewrite (sum_list_fmap_add (λ k, if decide (o = Some k) then 1 else 0)).
    rewrite indicator_sum by done.
    rewrite IH by (intros k Hk; apply Hks; by right).
    destruct o as [s|]; simpl; [|done].
    rewrite decide_True; [done|]. apply Hks. left.
Qed.

(** X29. The [Total]s of the accuracy table are positive counts that add up
    to the number of rows of the table that have a label in the grouping
    column: every such row is counted in exactly one group. *)
Theorem create_accuracy_totals_partition model_type cat_df error_type col keys dt e :
  frame_wf cat_df →
  assoc_lookup col (columns cat_df) = Some (Object keys) →
  assoc_lookup "errors" (columns cat_df) = Some (Numeric dt e) →
  effective_error_type model_type error_type ∈ ["MSE"; "RMSE"; "MAE"; "RAW"] →
  distinct_keys keys ≠ [] →
  ∃ out counts,
    create_accuracy model_type cat_df error_type (Some col) = Ok out ∧
    assoc_lookup "Total" (columns out) = Some (Numeric float64 (INR <$> counts)) ∧
    Forall (λ n, 0 < n) counts ∧
    sum_list counts = length (filter is_Some keys).
Proof.
  intros Hwf Hcol Herr Het Hne.
  eexists _, (key_count keys <$> distinct_keys keys).
  split; [by apply (create_accuracy_table _ _ _ col keys dt e)|].
  split; [|split].
  - rewrite <- list_fmap_compose.
    rewrite !elem_of_cons, elem_of_nil in Het.
    by destruct Het as [->|[->|[->|[->|[]]]]].
  - apply Forall_fmap, Forall_forall. intros k Hk. simpl.
    by apply key_count_pos, distinct_keys_elem_of.
  - rewrite key_counts_partition.
    + clear. induction keys as [|[s|] keys IH]; [done| |].
      * rewrite filter_cons, decide_True by eauto. csimpl. by rewrite IH.
      * rewrite filter_cons, decide_False by (by intros [? ?]). csimpl. exact IH.
    + apply sorted_uniq_NoDup.
    + intros k Hk. by apply distinct_keys_elem_of.
Qed.

Lemma create_accuracy_totals_partition_witness :
  ∃ out counts,
    create_accuracy "regression" accuracy_setup "MAE" (Some "col2") = Ok out ∧
    assoc_lookup "Total" (columns out) = Some (Numeric float64 (INR <$> counts)) ∧
    Forall (λ n, 0 < n) counts ∧
    sum_list counts = length (filter is_Some [Some "a"; Some "a"; Some "b"; Some "b"]).
Proof.
  apply (create_accuracy_totals_partition "regression" accuracy_setup "MAE" "col2"
           [Some "a"; Some "a"; Some "b"; Some "b"] float64 [1; 2; 3; 4]%R).
  - repeat constructor.
  - reflexivity.
  - reflexivity.
  - apply (bool_decide_unpack _). reflexivity.
  - discriminate.
Defined.

Lemma create_insights_assert_fails group group_var error_type :
  error_type ∉ ["MSE"; "RMSE"; "MAE"; "RAW"] →
  create_insights group group_var error_type
    = Raise (AssertionError create_insights_assert_msg).
Proof. intros Het. unfold create_insights. by rewrite bool_decide_eq_false_2. Qed.

(** X30. The error type is checked only when a group is aggregated: for a
    model type other than classification, an unsupported error type and a
    text grouping column with at least one label, [create_accuracy] fails
    with the assertion error of [create_insights]. *)
Theorem create_accuracy_unsupported_error_type model_type cat_df error_type col keys :
  assoc_lookup col (columns cat_df) = Some (Object keys) →
  distinct_keys keys ≠ [] →
  model_type ≠ "classification" →
  error_type ∉ ["MSE"; "RMSE"; "MAE"; "RAW"] →
  create_accuracy model_type cat_df error_type (Some col)
    = Raise (AssertionError create_insights_assert_msg).
Proof.
  intros Hcol Hne Hmt Het.
  unfold create_accuracy, groupby_apply, groupby, getitem.
  rewrite decide_False, Hcol by done. simpl. fold (distinct_keys keys).
  destruct (distinct_keys keys) as [|k ks]; [done|]. simpl.
  by rewrite create_insights_assert_fails by done.
Qed.

Lemma create_accuracy_unsupported_error_type_witness :
  create_accuracy "regression" accuracy_setup "FOO" (Some "col2")
    = Raise (AssertionError create_insights_assert_msg).
Proof.
  apply (create_accuracy_unsupported_error_type "regression" accuracy_setup "FOO"
           "col2" [Some "a"; Some "a"; Some "b"; Some "b"]).
  - reflexivity.
  - discriminate.
  - discriminate.
  - rewrite !elem_of_cons, elem_of_nil. intros [H|[H|[H|[H|[]]]]]; discriminate H.
Defined.
